(** * Real-time image detection backend: frame-drop scheduler and classifier adapter

    A shallow embedding of [Backend/config.py], [Backend/model_worker.py] and
    [Backend/main.py].  Each Python module is a Rocq [Module]; functions keep
    their Python names.  Library calls whose code is not part of the
    repository (numpy's [argsort], [json.loads], [base64.b64decode], the Keras
    model) are [Section] variables, so every theorem holds for whatever those
    calls return. *)

From Stdlib Require Import ZArith QArith Qround Lia Lqa.
From stdpp Require Import base decidable option list strings sorting gmap pretty.

Local Open Scope string_scope.
Local Open Scope list_scope.

(** Python [bytes]. *)
Definition bytes := list Byte.byte.

(** ** Exceptions and results *)

Inductive exn :=
| IndexError
| TypeError
| ValueError (msg : string)
| RuntimeError (msg : string)
| JSONDecodeError (msg : string)
| RecursionError (msg : string)
| WebSocketDisconnect.

(** [str(e)] *)
Definition exn_str (e : exn) : string :=
  match e with
  | IndexError => "list index out of range"
  | TypeError => "TypeError"
  | ValueError msg => msg
  | RuntimeError msg => msg
  | JSONDecodeError msg => msg
  | RecursionError msg => msg
  | WebSocketDisconnect => ""
  end.

Inductive result (A : Type) :=
| Ok (a : A)
| Raise (e : exn).
Arguments Ok {A} a.
Arguments Raise {A} e.

#[global] Instance result_ret : MRet result := fun A a => Ok a.
#[global] Instance result_bind : MBind result := fun A B k r =>
  match r with
  | Ok a => k a
  | Raise e => Raise e
  end.

(** ** config.py *)
Module Config.

Definition CLASS_NAMES : list string :=
  [ "animals"; "barriers"; "busstop"; "cables"; "clear_path";
    "construction_site"; "crosswalk"; "doors"; "elevators"; "fire";
    "fire_exits"; "potholes"; "slippery_surface"; "speed_bumps";
    "staircases"; "streetlight_poles"; "traffic_lights"; "trash_bins";
    "vehicles"; "walls" ].

Definition TOP_K : nat := 3.

(** A percentage, 0-100. *)
Definition CONFIDENCE_THRESHOLD : Q := 5.

(** [int(os.getenv("MAX_INFERENCE_WORKERS", "2"))]; the argument is the
    environment's value, already read as an integer, when there is one. *)
Definition MAX_INFERENCE_WORKERS (env : option Z) : Z := default 2%Z env.

Definition WS_MAX_MESSAGE_BYTES : Z := 2 * 1024 * 1024.

Definition ALLOWED_MIME_TYPES : gset string :=
  {[ "image/jpeg"; "image/png"; "image/gif"; "image/bmp"; "image/webp" ]}.

Definition MAX_UPLOAD_BYTES : Z := 10 * 1024 * 1024.

End Config.

(** ** Python's [round(x, 2)] on the exact value

    [round_half_even q] is the integer nearest to [q], ties going to the even
    one.  Python rounds a float to two decimals correctly (on the exact binary
    value, ties to even), so [round(x, 2)] is [round_half_even (100 x) / 100]
    as a decimal; we keep that decimal exactly, as a fraction over 100.

    The classifier's output is float32; [float(raw[idx]) * 100] is exact in
    binary64 (a 24-bit mantissa times 25 * 2^2 fits in 53 bits), which is why
    the rationals model the product without a rounding error.  Comparisons of
    the reported values agree with the comparisons of these decimals, the
    conversion of a decimal to the nearest float being monotone and the
    threshold 5.0 being a float. *)
Definition round_half_even (q : Q) : Z :=
  let h := (q + (1 # 2))%Q in
  let f := Qfloor h in
  if Qeq_bool (inject_Z f) h && Z.odd f then (f - 1)%Z else f.

Definition py_round2 (x : Q) : Q := round_half_even (x * 100) # 100.

(** ** An ascending [argsort]

    [raw.argsort()] is numpy's, with the default kind of sort: it returns
    the indices in ascending order of value, and the order it gives equal
    values is not specified (the default kind is not stable).  The
    classifier below takes the argsort as a parameter.  [insertion_argsort]
    is one ascending argsort, by insertion on the indices
    [0 .. len(raw) - 1]; it serves as the instance in the examples, and does
    not stand for numpy's order of equal values. *)
Fixpoint insert_index (raw : list Q) (i : nat) (sorted : list nat) : list nat :=
  match sorted with
  | [] => [i]
  | j :: rest =>
      if Qle_bool (nth j raw 0%Q) (nth i raw 0%Q)
      then j :: insert_index raw i rest
      else i :: j :: rest
  end.

Definition insertion_argsort (raw : list Q) : list nat :=
  fold_left (fun sorted i => insert_index raw i sorted) (seq 0 (length raw)) [].

(** ** model_worker.py *)
Module ModelWorker.

Record prediction := { label : string; confidence : Q }.

(** [a[-k:]] *)
Definition slice_last {A} (k : nat) (a : list A) : list A :=
  match k with
  | O => a
  | S _ => drop (length a - k) a
  end.

Section Classifier.
(** The configuration the module imports. *)
Variable class_names : list string.
Variable top_k : nat.
Variable threshold : Q.
(** [ndarray.argsort()] *)
Variable argsort : list Q -> list nat.
(** [_model.predict(_preprocess(image_bytes), verbose=0)[0]]: decoding may
    raise, the model returns one value per class. *)
Variable model_predict : bytes -> result (list Q).

(** [raw.argsort()[-TOP_K:][::-1]] *)
Definition top_indices (raw : list Q) : list nat :=
  reverse (slice_last top_k (argsort raw)).

(** [round(float(raw[idx]) * 100, 2)] *)
Definition confidence_of (r : Q) : Q := py_round2 (r * 100).

(** The [for idx in top_indices] loop, [results] being the list built so far. *)
Fixpoint collect (raw : list Q) (idxs : list nat) (results : list prediction)
  : result (list prediction) :=
  match idxs with
  | [] => Ok results
  | idx :: rest =>
      match raw !! idx with
      | None => Raise IndexError
      | Some r =>
          let confidence := confidence_of r in
          if Qle_bool threshold confidence then
            match class_names !! idx with
            | None => Raise IndexError
            | Some name =>
                collect raw rest
                  (results ++ [{| label := name; confidence := confidence |}])
            end
          else collect raw rest results
      end
  end.

(** Lines 70-81 of [_predict_sync]: from the raw vector to the result. *)
Definition postprocess (raw : list Q) : result (list prediction) :=
  collect raw (top_indices raw) [].

Definition _predict_sync (image_bytes : bytes) : result (list prediction) :=
  raw ← model_predict image_bytes; postprocess raw.

(** What the loop does at one index, read off [collect]: whether the entry
    passes the floor, and the entry appended when it does. *)
Definition keeps (raw : list Q) (idx : nat) : bool :=
  match raw !! idx with
  | Some r => Qle_bool threshold (confidence_of r)
  | None => false
  end.

Definition entry (raw : list Q) (idx : nat) : prediction :=
  {| label := nth idx class_names ""; confidence := confidence_of (nth idx raw 0%Q) |}.

(** The indices whose entries are reported, in the order of the result. *)
Definition predicted_indices (raw : list Q) : list nat :=
  filter (fun idx => keeps raw idx) (top_indices raw).

End Classifier.

(** *** What an [argsort] is

    [raw[i]], and two orders of the indices: by value alone, which is all
    that [raw.argsort()] promises, and by value and then by index, which is
    what a stable sort such as [insertion_argsort] gives. *)
Definition value (raw : list Q) (i : nat) : Q := nth i raw 0%Q.

Definition by_value (raw : list Q) : relation nat :=
  fun i j => (value raw i <= value raw j)%Q.

Definition by_value_then_index (raw : list Q) : relation nat :=
  fun i j => (value raw i < value raw j)%Q \/ ((value raw i == value raw j)%Q /\ i < j).

Definition ascending_argsort (raw : list Q) (idxs : list nat) : Prop :=
  idxs ≡ₚ seq 0 (length raw) /\ StronglySorted (by_value raw) idxs.

Definition stable_argsort (raw : list Q) (idxs : list nat) : Prop :=
  idxs ≡ₚ seq 0 (length raw) /\ StronglySorted (by_value_then_index raw) idxs.

Section Configured.
Variable argsort : list Q -> list nat.
Variable model_predict : bytes -> result (list Q).

(** [await run_inference(image_bytes)]: the value [_predict_sync] returns in
    the executor's thread, or the exception it raises there, under the
    configuration the module imports. *)
Definition run_inference (image_bytes : bytes) : result (list prediction) :=
  _predict_sync Config.CLASS_NAMES Config.TOP_K Config.CONFIDENCE_THRESHOLD
    argsort model_predict image_bytes.

End Configured.

(** *** Module initialisation (lines 38-53)

    [output_dim] is [_model.output_shape[-1]] of the loaded model ([None] for
    a dimension Keras leaves open), [max_workers] is [MAX_INFERENCE_WORKERS].
    The module raises before it defines [_executor] when the dimensions
    disagree; [ThreadPoolExecutor] itself raises on a pool size below one. *)
Inductive executor := ThreadPoolExecutor (max_workers : Z).

Definition dim_str (d : option Z) : string :=
  match d with
  | Some n => pretty n
  | None => "None"
  end.

Definition mismatch_message (output_dim : option Z) : string :=
  "Model output (" +:+ dim_str output_dim +:+ " classes) != CLASS_NAMES ("
  +:+ pretty (length Config.CLASS_NAMES) +:+ " classes). Retrain or update config.".

Definition module_init (output_dim : option Z) (max_workers : Z) : result executor :=
  if decide (output_dim ≠ Some (Z.of_nat (length Config.CLASS_NAMES)))
  then Raise (ValueError (mismatch_message output_dim))
  else if decide (max_workers <= 0)%Z
       then Raise (ValueError "max_workers must be greater than 0")
       else Ok (ThreadPoolExecutor max_workers).

(** *** Vectors used in the examples *)

(** One value per class of [Config.CLASS_NAMES]: "potholes" 0.8742, "walls"
    0.06, "doors" 0.0499, the rest 0.001. *)
Definition sample_raw : list Q :=
  (replicate 7 (1 # 1000) ++ [499 # 10000] ++ replicate 3 (1 # 1000)
   ++ [8742 # 10000] ++ replicate 7 (1 # 1000) ++ [6 # 100])%Q.

(** A float32 value just below 0.05: 13419088 * 2^-28 = 0.04998999.... *)
Definition below_floor : Q := 13419088 # 268435456.

(** Indices 0 and 1 tie at 0.5, indices 2 and 3 tie at 0.1. *)
Definition tie_raw : list Q := [1 # 2; 1 # 2; 1 # 10; 1 # 10]%Q.

End ModelWorker.

Import ModelWorker.

(** ** The bounded executor *)
Module Executor.

(** Modelled from the spec: the fixed-capacity worker pool of section 4.2.
    The pool is Python's [ThreadPoolExecutor], whose code is not in the
    repository; [model_worker.py] only constructs it with
    [max_workers=MAX_INFERENCE_WORKERS] and submits [_predict_sync] calls to
    it.  A submission joins the end of the queue; a free worker takes the
    submission at the head of the queue; a worker whose call returns or
    raises is free again.  [submitted] and [dispatched] record the order of
    the submissions and of the starts. *)
Record pool := {
  max_workers : nat;
  work_queue : list bytes;
  executing : list bytes;
  submitted : list bytes;
  dispatched : list bytes;
}.

Inductive pool_event :=
| Submit (image_bytes : bytes)
| Dispatch
| Complete (worker : nat).

Definition new_pool (n : nat) : pool :=
  {| max_workers := n; work_queue := []; executing := [];
     submitted := []; dispatched := [] |}.

(** Modelled from the spec: one step of the pool of section 4.2 (the code of
    [ThreadPoolExecutor] is not in the repository).  [Submit]: a call is
    submitted; [Dispatch]: a free worker, if there is one, starts the call
    at the head of the queue; [Complete]: the call of a worker ends. *)
Definition pool_step (p : pool) (ev : pool_event) : pool :=
  match ev with
  | Submit job =>
      {| max_workers := max_workers p;
         work_queue := work_queue p ++ [job];
         executing := executing p;
         submitted := submitted p ++ [job];
         dispatched := dispatched p |}
  | Dispatch =>
      if decide (length (executing p) < max_workers p) then
        match work_queue p with
        | job :: rest =>
            {| max_workers := max_workers p;
               work_queue := rest;
               executing := executing p ++ [job];
               submitted := submitted p;
               dispatched := dispatched p ++ [job] |}
        | [] => p
        end
      else p
  | Complete worker =>
      {| max_workers := max_workers p;
         work_queue := work_queue p;
         executing := delete worker (executing p);
         submitted := submitted p;
         dispatched := dispatched p |}
  end.

Definition pool_run (evs : list pool_event) (p : pool) : pool :=
  fold_left pool_step evs p.

(** [_executor], for the value the environment gives [MAX_INFERENCE_WORKERS]. *)
Definition _executor (env : option Z) : pool :=
  new_pool (Z.to_nat (Config.MAX_INFERENCE_WORKERS env)).

(** What every state of the pool satisfies. *)
Record pool_inv (p : pool) : Prop := {
  inv_bound : length (executing p) <= max_workers p;
  inv_fifo : dispatched p ++ work_queue p = submitted p;
}.

End Executor.

(** ** main.py *)
Module Main.

(** *** Start of the process

    [main.py] imports [model_worker] before it builds the application, so an
    exception of the module's initialisation ends the process before
    [uvicorn.run]. *)
Inductive process :=
| Serving (pool : ModelWorker.executor)
| NotStarted (e : exn).

Definition start (output_dim : option Z) (env : option Z) : process :=
  match ModelWorker.module_init output_dim (Config.MAX_INFERENCE_WORKERS env) with
  | Ok pool => Serving pool
  | Raise e => NotStarted e
  end.

(** *** What the handlers send *)

Inductive body :=
| ErrorBody (error : string)
| PredictionBody (filename : option string) (predictions : list prediction).

Record JSONResponse := { status_code : Z; content : body }.

Record UploadFile := {
  content_type : option string;
  filename : option string;
  contents : bytes;
}.

(** [content_type in ALLOWED_MIME_TYPES]; an upload may carry no type. *)
Definition allowed_type (content_type : option string) : bool :=
  match content_type with
  | Some t => bool_decide (t ∈ Config.ALLOWED_MIME_TYPES)
  | None => false
  end.

(** A message of [websocket.send_json]. *)
Inductive server_msg :=
| Predictions (predictions : list prediction) (latency_ms : Q)
| Error (msg : string).

(** What [json.loads] returns. *)
#[warnings="-register-all"]
Inductive json :=
| JNull
| JBool (b : bool)
| JNumber (n : Q)
| JString (s : string)
| JArray (items : list json)
| JObject (members : gmap string json).

(** [needle in s] on strings. *)
Fixpoint str_contains (needle s : string) : bool :=
  String.prefix needle s
  || match s with
     | EmptyString => false
     | String _ rest => str_contains needle rest
     end.

(** ["frame" in msg]: membership in a dict, a list or a string; any other
    value is not iterable. *)
Definition has_frame (msg : json) : result bool :=
  match msg with
  | JObject members => Ok (bool_decide (is_Some (members !! "frame")))
  | JArray items =>
      Ok (existsb (fun v => match v with JString s => String.eqb s "frame" | _ => false end)
            items)
  | JString s => Ok (str_contains "frame" s)
  | JNull | JBool _ | JNumber _ => Raise TypeError
  end.

(** An outcome of [await websocket.send_json(...)]. *)
Inductive send_outcome :=
| Sent
| SendRaises (e : exn).

(** A frame in the mailbox: the decoded bytes, stamped with the number of
    frames accepted before it on this connection (the stamp is not in the
    Python state; it tells two arrivals of equal bytes apart). *)
Record frame := { seq : nat; data : bytes }.

(** Where [_inference_loop] is suspended.  [Sending msg handling]: in
    [await websocket.send_json(msg)], inside the [except Exception] block
    when [handling] is set, inside the [try] block otherwise. *)
Inductive loop_state :=
| Sleeping                (* in [asyncio.sleep(0.01)], or not yet scheduled *)
| Inferring (f : frame)   (* in [await run_inference(frame_bytes)] *)
| Sending (msg : server_msg) (handling : bool)
| Broken                  (* left by [break] *)
| Cancelled.              (* [loop_task.cancel()] *)

(** Where [ws_predict] itself is suspended, or how it ended. *)
Inductive handler_state :=
| Receiving               (* in [await websocket.receive_text()] *)
| Replying (msg : string) (* in [await websocket.send_json({"error": msg})] *)
| Disconnected            (* left through [except WebSocketDisconnect] *)
| Crashed (e : exn).      (* left by an exception nothing catches *)

(** What happened on the connection. *)
Inductive obs :=
| Arrived (f : frame)     (* [pending_frame[0] = frame_bytes] *)
| Started (f : frame)     (* [run_inference(frame_bytes)] called *)
| Finished (f : frame).   (* that call returned or raised *)

(** One connection: the two variables the coroutines share, where each
    coroutine stands, the messages sent and the history.  [sent] and
    [history] are newest first. *)
Record conn := {
  pending_frame : option frame;
  busy : bool;
  loop_task : loop_state;
  handler : handler_state;
  sent : list server_msg;
  accepted : nat;
  history : list obs;
}.

(** The event loop resumes one of the two coroutines at the [await] it is
    suspended in; the coroutine then runs to its next [await]. *)
Inductive event :=
| Receive (raw : string)             (* [receive_text] returns [raw] *)
| ReceiveRaises (e : exn)            (* [receive_text] raises *)
| ReplyReturns (outcome : send_outcome)  (* the [send_json] of [ws_predict] *)
| Wake                               (* first run of the loop task, or [sleep] returns *)
| Done (latency_ms : Q)              (* [run_inference] returns or raises *)
| SendReturns (outcome : send_outcome).  (* the [send_json] of [_inference_loop] *)

Section Server.
(** [json.loads(raw)]: the value, or the exception raised: [JSONDecodeError]
    on a text that is not JSON, and also [RecursionError] on a text nested
    too deep and a plain [ValueError] on an integer of more than 4300
    digits. *)
Variable json_loads : string -> result json.
(** [base64.b64decode(s)] on a string, [None] when it raises. *)
Variable b64decode : string -> option bytes.
(** What [await run_inference(image_bytes)] returns or raises. *)
Variable run_inference : bytes -> result (list prediction).

(** **** POST /predict-image

    [calls] lists the images handed to [run_inference] so far. *)
Definition predict_image (file : UploadFile) (calls : list bytes)
  : JSONResponse * list bytes :=
  if allowed_type (content_type file)
  then
    if decide (Config.MAX_UPLOAD_BYTES < Z.of_nat (length (contents file)))%Z
    then ({| status_code := 400; content := ErrorBody "File too large." |}, calls)
    else
      match run_inference (contents file) with
      | Ok predictions =>
          ({| status_code := 200;
              content := PredictionBody (filename file) predictions |},
           calls ++ [contents file])
      | Raise e =>
          ({| status_code := 400; content := ErrorBody (exn_str e) |},
           calls ++ [contents file])
      end
  else
    ({| status_code := 400;
        content := ErrorBody ("Unsupported type '"
                              +:+ default "None" (content_type file) +:+ "'.") |},
     calls).

(** **** WS /ws/predict *)

(** The state after [websocket.accept()] and [asyncio.create_task]. *)
Definition accept : conn :=
  {| pending_frame := None; busy := false; loop_task := Sleeping;
     handler := Receiving; sent := []; accepted := 0; history := [] |}.

(** [len(raw) > WS_MAX_MESSAGE_BYTES * 1.4]; on integers the comparison with
    the float 1.4 and with the fraction 14/10 agree. *)
Definition too_large (raw : string) : bool :=
  negb (Qle_bool (inject_Z (Z.of_nat (String.length raw)))
          (inject_Z Config.WS_MAX_MESSAGE_BYTES * (14 # 10))).

(** [base64.b64decode(msg["frame"])] inside [try ... except Exception]:
    [None] when the subscript or the decoding raises. *)
Definition frame_bytes_of (msg : json) : option bytes :=
  match msg with
  | JObject members =>
      match members !! "frame" with
      | Some (JString s) => b64decode s
      | _ => None
      end
  | _ => None
  end.

Definition set_loop (l : loop_state) (b : bool) (s : conn) : conn :=
  {| pending_frame := pending_frame s; busy := b; loop_task := l;
     handler := handler s; sent := sent s; accepted := accepted s;
     history := history s |}.

Definition set_handler (st : handler_state) (s : conn) : conn :=
  {| pending_frame := pending_frame s; busy := busy s; loop_task := loop_task s;
     handler := st; sent := sent s; accepted := accepted s;
     history := history s |}.

Definition add_sent (msg : server_msg) (s : conn) : conn :=
  {| pending_frame := pending_frame s; busy := busy s; loop_task := loop_task s;
     handler := handler s; sent := msg :: sent s; accepted := accepted s;
     history := history s |}.

Definition record (o : obs) (s : conn) : conn :=
  {| pending_frame := pending_frame s; busy := busy s; loop_task := loop_task s;
     handler := handler s; sent := sent s; accepted := accepted s;
     history := o :: history s |}.

(** [loop_task.cancel()] in the [finally] of [ws_predict].  A loop
    cancelled inside its [try] statement runs [busy.clear()] on the way out;
    a loop that has ended is left as it is. *)
Definition cancel_loop (s : conn) : conn :=
  match loop_task s with
  | Sleeping => set_loop Cancelled (busy s) s
  | Inferring _ | Sending _ _ => set_loop Cancelled false s
  | Broken | Cancelled => s
  end.

(** [ws_predict] ends as [st], through its [finally]. *)
Definition leave (st : handler_state) (s : conn) : conn :=
  set_handler st (cancel_loop s).

(** How [ws_predict] ends on an exception: only [WebSocketDisconnect] is
    caught. *)
Definition ending (e : exn) : handler_state :=
  match e with
  | WebSocketDisconnect => Disconnected
  | _ => Crashed e
  end.

(** [await websocket.send_json({"error": msg})] is entered. *)
Definition reply_error (msg : string) (s : conn) : conn :=
  set_handler (Replying msg) s.

(** [pending_frame[0] = frame_bytes] *)
Definition put (frame_bytes : bytes) (s : conn) : conn :=
  let f := {| seq := accepted s; data := frame_bytes |} in
  {| pending_frame := Some f; busy := busy s; loop_task := loop_task s;
     handler := handler s; sent := sent s; accepted := S (accepted s);
     history := Arrived f :: history s |}.

(** One turn of the [while True] of [ws_predict], from the return of
    [receive_text] to the next [await].  Of the exceptions of [json.loads]
    only [JSONDecodeError] is caught; of those of ["frame" not in msg],
    none. *)
Definition on_text (raw : string) (s : conn) : conn :=
  if too_large raw then reply_error "Frame too large." s
  else
    match json_loads raw with
    | Raise (JSONDecodeError _) => reply_error "Invalid JSON." s
    | Raise e => leave (ending e) s
    | Ok msg =>
        match has_frame msg with
        | Raise e => leave (ending e) s
        | Ok false => reply_error "Missing 'frame' key." s
        | Ok true =>
            match frame_bytes_of msg with
            | None => reply_error "Invalid base64 in 'frame'." s
            | Some frame_bytes => put frame_bytes s
            end
        end
    end.

(** The error reply of [ws_predict] returns, then [continue]; or it raises. *)
Definition on_reply (msg : string) (outcome : send_outcome) (s : conn) : conn :=
  match outcome with
  | Sent => set_handler Receiving (add_sent (Error msg) s)
  | SendRaises e => leave (ending e) s
  end.

(** The top of the [while True] of [_inference_loop], up to the next
    [await]: sleep on an empty mailbox, else set [busy], take the frame and
    call [run_inference]. *)
Definition pick_up (s : conn) : conn :=
  match pending_frame s with
  | None => set_loop Sleeping (busy s) s
  | Some f =>
      {| pending_frame := None; busy := true; loop_task := Inferring f;
         handler := handler s; sent := sent s; accepted := accepted s;
         history := Started f :: history s |}
  end.

(** [run_inference] completes for [f]: the result is sent from the [try]
    block, the message of an exception from the [except] block. *)
Definition on_done (f : frame) (latency_ms : Q) (s : conn) : conn :=
  match run_inference (data f) with
  | Ok predictions =>
      set_loop (Sending (Predictions predictions latency_ms) false) (busy s)
        (record (Finished f) s)
  | Raise e =>
      set_loop (Sending (Error (exn_str e)) true) (busy s) (record (Finished f) s)
  end.

(** The [send_json] of the loop completes.  Sent: [finally: busy.clear()]
    and back to the top of the loop.  Raised inside [try]: the [except]
    block sends the exception's message.  Raised inside [except]: [break],
    through [finally: busy.clear()]. *)
Definition on_sent (msg : server_msg) (handling : bool) (outcome : send_outcome)
    (s : conn) : conn :=
  match outcome with
  | Sent => pick_up (set_loop (loop_task s) false (add_sent msg s))
  | SendRaises e =>
      if handling then set_loop Broken false s
      else set_loop (Sending (Error (exn_str e)) true) (busy s) s
  end.

(** One step of the connection.  An event that cannot happen in the state
    (a message while the handler is not receiving, a completion with nothing
    in flight) changes nothing. *)
Definition step (s : conn) (ev : event) : conn :=
  match ev with
  | Receive raw =>
      match handler s with
      | Receiving => on_text raw s
      | _ => s
      end
  | ReceiveRaises e =>
      match handler s with
      | Receiving => leave (ending e) s
      | _ => s
      end
  | ReplyReturns outcome =>
      match handler s with
      | Replying msg => on_reply msg outcome s
      | _ => s
      end
  | Wake =>
      match loop_task s with
      | Sleeping => pick_up s
      | _ => s
      end
  | Done latency_ms =>
      match loop_task s with
      | Inferring f => on_done f latency_ms s
      | _ => s
      end
  | SendReturns outcome =>
      match loop_task s with
      | Sending msg handling => on_sent msg handling outcome s
      | _ => s
      end
  end.

Definition run (evs : list event) (s : conn) : conn := fold_left step evs s.

End Server.

(** *** Reading a history (newest first) *)

Definition arrivals (h : list obs) : list frame :=
  omap (fun o => match o with Arrived f => Some f | _ => None end) h.

Definition starts (h : list obs) : list frame :=
  omap (fun o => match o with Started f => Some f | _ => None end) h.

(** The most recent arrival. *)
Definition latest (h : list obs) : option frame := head (arrivals h).

(** The classifications started and not finished. *)
Fixpoint in_flight (h : list obs) : list frame :=
  match h with
  | [] => []
  | Arrived _ :: h' => in_flight h'
  | Started f :: h' => f :: in_flight h'
  | Finished f :: h' => filter (fun g => seq g ≠ seq f) (in_flight h')
  end.

(** Every call of [run_inference] was made with nothing in flight. *)
Fixpoint starts_when_idle (h : list obs) : bool :=
  match h with
  | [] => true
  | Started _ :: h' => bool_decide (in_flight h' = []) && starts_when_idle h'
  | _ :: h' => starts_when_idle h'
  end.

(** *** What every reachable state of a connection satisfies *)

(** Each call of [run_inference] took the most recent arrival, and a frame
    not taken before. *)
Fixpoint picks_latest (h : list obs) : Prop :=
  match h with
  | [] => True
  | Started f :: h' => latest h' = Some f /\ (f ∉ starts h') /\ picks_latest h'
  | _ :: h' => picks_latest h'
  end.

(** The mailbox against the history. *)
Record mailbox_inv (s : conn) : Prop := {
  inv_stamps : Forall (fun f => seq f < accepted s) (arrivals (history s));
  inv_order : StronglySorted (fun f g => seq g < seq f) (arrivals (history s));
  inv_mailbox :
    match pending_frame s with
    | Some f =>
        exists older, arrivals (history s) = f :: older
                      /\ starts (history s) `sublist_of` older
    | None =>
        starts (history s) `sublist_of` arrivals (history s)
        /\ head (starts (history s)) = latest (history s)
    end;
  inv_idle : starts_when_idle (history s) = true;
  inv_picks : picks_latest (history s);
}.

(** [ws_predict] has not ended. *)
Definition handler_open (s : conn) : Prop :=
  match handler s with
  | Receiving | Replying _ => True
  | Disconnected | Crashed _ => False
  end.

(** The loop task against the history. *)
Definition loop_inv (s : conn) : Prop :=
  match loop_task s with
  | Inferring f =>
      in_flight (history s) = [f] /\ busy s = true /\ handler_open s
  | Sending _ _ =>
      in_flight (history s) = [] /\ busy s = true /\ handler_open s
  | Sleeping =>
      in_flight (history s) = [] /\ busy s = false /\ handler_open s
  | Broken => in_flight (history s) = [] /\ busy s = false
  | Cancelled =>
      length (in_flight (history s)) <= 1 /\ busy s = false
      /\ ~ handler_open s
  end.

Definition conn_inv (s : conn) : Prop := mailbox_inv s /\ loop_inv s.

(** What one step does to the mailbox. *)
Inductive mailbox_move (s s' : conn) : Prop :=
| move_none :
    pending_frame s' = pending_frame s ->
    accepted s' = accepted s ->
    starts (history s') = starts (history s) ->
    arrivals (history s') = arrivals (history s) ->
    mailbox_move s s'
| move_put f :
    pending_frame s' = Some f ->
    seq f = accepted s ->
    accepted s' = S (accepted s) ->
    starts (history s') = starts (history s) ->
    arrivals (history s') = f :: arrivals (history s) ->
    loop_task s' = loop_task s ->
    mailbox_move s s'
| move_take f :
    pending_frame s = Some f ->
    pending_frame s' = None ->
    accepted s' = accepted s ->
    starts (history s') = f :: starts (history s) ->
    arrivals (history s') = arrivals (history s) ->
    mailbox_move s s'.

(** No frame with a stamp below [low_water s] is taken from [s] on. *)
Definition low_water (s : conn) : nat :=
  match pending_frame s with
  | Some p => seq p
  | None => accepted s
  end.

(** *** Results against the messages received *)

(** The messages [receive_text] returned. *)
Definition received (evs : list event) : list string :=
  omap (fun ev => match ev with Receive raw => Some raw | _ => None end) evs.

(** Messages that arrive one after the other, [raw] the last of them, then
    the completion of the classification in flight and of its reply. *)
Definition burst (earlier : list string) (raw : string) (latency_ms : Q)
  : list event :=
  (Receive <$> earlier) ++ [Receive raw; Done latency_ms; SendReturns Sent].

(** The classifier results among the messages sent. *)
Definition results (msgs : list server_msg) : list (list prediction) :=
  omap (fun m => match m with Predictions preds _ => Some preds | Error _ => None end)
    msgs.

(** The results the loop may still send: one for a call in flight, one for
    a result on its way out. *)
Definition owed (l : loop_state) : nat :=
  match l with
  | Inferring _ | Sending (Predictions _ _) _ => 1
  | _ => 0
  end.

Section Provenance.
Variable json_loads : string -> result json.
Variable b64decode : string -> option bytes.
Variable run_inference : bytes -> result (list prediction).

(** [raw] passes the checks of [ws_predict] and carries [frame_bytes]. *)
Definition decodes_to (raw : string) (frame_bytes : bytes) : Prop :=
  too_large raw = false
  /\ exists msg, json_loads raw = Ok msg /\ has_frame msg = Ok true
                 /\ frame_bytes_of b64decode msg = Some frame_bytes.

(** [frame_bytes] was carried by one of the messages [raws]. *)
Definition sent_in (raws : list string) (frame_bytes : bytes) : Prop :=
  exists raw, raw ∈ raws /\ decodes_to raw frame_bytes.

(** [preds] is what [run_inference] returns on a frame of [raws]. *)
Definition result_of (raws : list string) (preds : list prediction) : Prop :=
  exists frame_bytes, sent_in raws frame_bytes /\ run_inference frame_bytes = Ok preds.

(** The frames and results of a connection against the messages [raws]
    received on it. *)
Record results_inv (raws : list string) (s : conn) : Prop := {
  inv_pending : forall f, pending_frame s = Some f -> sent_in raws (data f);
  inv_inferring : forall f, loop_task s = Inferring f -> sent_in raws (data f);
  inv_sending :
    forall preds latency handling,
      loop_task s = Sending (Predictions preds latency) handling ->
      result_of raws preds;
  inv_results : Forall (result_of raws) (results (sent s));
  inv_count :
    length (results (sent s)) + owed (loop_task s) <= length (starts (history s));
  inv_arrivals : length (arrivals (history s)) = accepted s;
  inv_received : accepted s <= length raws;
}.

End Provenance.

(** The results sent, newest first, against the frames [fs] they answer:
    frames taken for processing, in the same order, the frame in flight or
    just classified not among them. *)
Definition replies_inv (run_inference : bytes -> result (list prediction))
    (s : conn) (fs : list frame) : Prop :=
  Forall2 (fun preds f => run_inference (data f) = Ok preds) (results (sent s)) fs
  /\ match loop_task s with
     | Inferring f =>
         exists rest, starts (history s) = f :: rest /\ fs `sublist_of` rest
     | Sending (Predictions preds _) _ =>
         exists f rest, starts (history s) = f :: rest
                        /\ run_inference (data f) = Ok preds
                        /\ fs `sublist_of` rest
     | _ => fs `sublist_of` starts (history s)
     end.

(** The state without the [busy] flag. *)
Definition forget_busy (s : conn) : conn :=
  {| pending_frame := pending_frame s; busy := false; loop_task := loop_task s;
     handler := handler s; sent := sent s; accepted := accepted s;
     history := history s |}.

(** *** GET /health *)
Record HealthBody := {
  status : string;
  num_classes : nat;
  classes : list string;
}.

Definition health : HealthBody :=
  {| status := "ok"; num_classes := length Config.CLASS_NAMES;
     classes := Config.CLASS_NAMES |}.

(** *** A connection at work

    [json.loads] and [base64.b64decode] on the messages used below:
    [{"frame": "QQ=="}], [{"frame": "Qg=="}], [{"frame": ""}], [null],
    [{}], and [{"frame": 11...1}] with an integer of 4301 digits. *)
Definition dq : string := String (Ascii.ascii_of_nat 34) EmptyString.

Definition frame_message (b64 : string) : string :=
  "{" +:+ dq +:+ "frame" +:+ dq +:+ ": " +:+ dq +:+ b64 +:+ dq +:+ "}".

(** A message whose "frame" is an integer of [digits] digits. *)
Definition integer_message (digits : nat) : string :=
  "{" +:+ dq +:+ "frame" +:+ dq +:+ ": "
  +:+ fold_right String.append EmptyString (replicate digits "1") +:+ "}".

Definition demo_json_loads (raw : string) : result json :=
  if String.eqb raw (frame_message "QQ==")
  then Ok (JObject {[ "frame" := JString "QQ==" ]})
  else if String.eqb raw (frame_message "Qg==")
  then Ok (JObject {[ "frame" := JString "Qg==" ]})
  else if String.eqb raw (frame_message "")
  then Ok (JObject {[ "frame" := JString "" ]})
  else if String.eqb raw "null" then Ok JNull
  else if String.eqb raw "{}" then Ok (JObject ∅)
  else if String.eqb raw (integer_message 4301)
  then Raise (ValueError "Exceeds the limit (4300 digits) for integer string conversion")
  else Raise (JSONDecodeError "Expecting value").

Definition demo_b64decode (s : string) : option bytes :=
  if String.eqb s "QQ==" then Some [Byte.x41]
  else if String.eqb s "Qg==" then Some [Byte.x42]
  else if String.eqb s "" then Some []
  else None.

(** A classifier that finds nothing in the images A and B and cannot decode
    anything else. *)
Definition demo_run_inference (image_bytes : bytes) : result (list prediction) :=
  match image_bytes with
  | [Byte.x41] => Ok []
  | [Byte.x42] => Ok []
  | _ => Raise (ValueError "cannot identify image file")
  end.

Definition demo_step : conn -> event -> conn :=
  step demo_json_loads demo_b64decode demo_run_inference.
Definition demo_run : list event -> conn -> conn :=
  run demo_json_loads demo_b64decode demo_run_inference.

Definition frame_A : frame := {| seq := 0; data := [Byte.x41] |}.
Definition frame_B : frame := {| seq := 1; data := [Byte.x42] |}.

(** Two frames, the second sent while the first is classified. *)
Definition two_frames : list event :=
  [ Receive (frame_message "QQ=="); Wake;
    Receive (frame_message "Qg==");
    Done 12; SendReturns Sent; Done 12; SendReturns Sent ].

End Main.

(** * Facts about the classifier adapter *)
Module ModelWorkerFacts.


Lemma round_half_even_mono (q1 q2 : Q) :
  (q1 <= q2)%Q -> (round_half_even q1 <= round_half_even q2)%Z.
Proof.
  intros Hle. unfold round_half_even.
  set (h1 := (q1 + (1 # 2))%Q). set (h2 := (q2 + (1 # 2))%Q).
  assert (Hh : (h1 <= h2)%Q) by (apply Qplus_le_l; exact Hle).
  pose proof (Qfloor_resp_le _ _ Hh) as Hf.
  destruct (Qeq_bool (inject_Z (Qfloor h1)) h1 && Z.odd (Qfloor h1)) eqn:E1;
    destruct (Qeq_bool (inject_Z (Qfloor h2)) h2 && Z.odd (Qfloor h2)) eqn:E2;
    try lia.
  destruct (Z.eq_dec (Qfloor h1) (Qfloor h2)) as [Ef|]; [|lia].
  exfalso. apply andb_true_iff in E2 as [E2 Hodd].
  apply Qeq_bool_iff in E2.
  assert (E : (inject_Z (Qfloor h1) == h1)%Q).
  { apply Qle_antisym; [apply Qfloor_le|].
    rewrite Ef, E2. exact Hh. }
  apply not_true_iff_false in E1. apply E1.
  apply andb_true_iff. split; [by apply Qeq_bool_iff | by rewrite Ef].
Qed.

(** *** The insertion sort is a stable argsort *)

Lemma by_value_then_index_by_value raw i j :
  by_value_then_index raw i j -> by_value raw i j.
Proof.
  unfold by_value. intros [H|[H _]]; [by apply Qlt_le_weak|].
  rewrite H. apply Qle_refl.
Qed.

Lemma StronglySorted_weaken {A} (R S : relation A) l :
  (forall x y, R x y -> S x y) -> StronglySorted R l -> StronglySorted S l.
Proof.
  intros HRS. induction 1 as [|x l _ IH Hx]; constructor; [done|].
  eapply Forall_impl; eauto.
Qed.

Lemma stable_argsort_ascending raw idxs :
  stable_argsort raw idxs -> ascending_argsort raw idxs.
Proof.
  intros [Hp Hs]. split; [done|].
  eapply StronglySorted_weaken; [apply by_value_then_index_by_value | done].
Qed.

Lemma insert_index_perm raw i l : insert_index raw i l ≡ₚ i :: l.
Proof.
  induction l as [|j l IH]; simpl; [done|].
  destruct (Qle_bool _ _); [|done].
  rewrite IH. apply Permutation_swap.
Qed.

Lemma insert_index_sorted raw i l :
  Forall (fun j => j < i) l ->
  StronglySorted (by_value_then_index raw) l ->
  StronglySorted (by_value_then_index raw) (insert_index raw i l).
Proof.
  intros Hlt Hs. induction Hs as [|j l Hs IH Hj]; simpl.
  { repeat constructor. }
  apply Forall_cons in Hlt as [Hji Hlt].
  destruct (Qle_bool (nth j raw 0%Q) (nth i raw 0%Q)) eqn:E.
  - apply Qle_bool_iff in E. constructor; [by apply IH|].
    rewrite insert_index_perm. constructor; [|done].
    apply Qle_lteq in E as [E|E]; [by left | by right].
  - assert (Hij : (value raw i < value raw j)%Q).
    { apply Qnot_le_lt. intros H. apply Qle_bool_iff in H.
      unfold value in H. congruence. }
    constructor; [by constructor|].
    constructor; [by left|].
    eapply Forall_impl; [exact Hj|]. intros k Hjk. left.
    eapply Qlt_le_trans; [exact Hij|].
    by apply by_value_then_index_by_value.
Qed.

Lemma insertion_fold_spec raw (n m : nat) acc :
  acc ≡ₚ seq 0 n ->
  StronglySorted (by_value_then_index raw) acc ->
  let out := fold_left (fun sorted i => insert_index raw i sorted) (seq n m) acc in
  out ≡ₚ seq 0 (n + m) /\ StronglySorted (by_value_then_index raw) out.
Proof.
  revert n acc. induction m as [|m IH]; intros n acc Hp Hs; simpl.
  { by rewrite Nat.add_0_r. }
  replace (n + S m) with (S n + m) by lia.
  apply IH.
  - rewrite insert_index_perm, Hp.
    replace (S n) with (n + 1) by lia.
    rewrite seq_app. simpl. by rewrite <-Permutation_cons_append.
  - apply insert_index_sorted; [|done].
    rewrite Forall_forall. intros j Hj. rewrite Hp in Hj.
    apply elem_of_seq in Hj. lia.
Qed.

Lemma insertion_argsort_stable raw : stable_argsort raw (insertion_argsort raw).
Proof.
  unfold stable_argsort, insertion_argsort.
  apply (insertion_fold_spec raw 0 (length raw) []); [done | constructor].
Qed.

Example spec_example :
  postprocess ["a"; "b"; "c"; "d"] 3 5 insertion_argsort
    [81 # 100; 4 # 100; 9 # 100; 87 # 100]%Q
  = Ok [ {| label := "d"; confidence := 8700 # 100 |};
         {| label := "a"; confidence := 8100 # 100 |};
         {| label := "c"; confidence := 900 # 100 |} ].
Proof. vm_compute. reflexivity. Qed.

(** The same vector as the float32 values the model returns:
    0.81 = 13589545 * 2^-24, 0.04 = 10737418 * 2^-28, 0.09 = 12079596 * 2^-27,
    0.87 = 14596178 * 2^-24. *)
Example spec_example_float32 :
  postprocess ["a"; "b"; "c"; "d"] 3 5 insertion_argsort
    [13589545 # 16777216; 10737418 # 268435456;
     12079596 # 134217728; 14596178 # 16777216]%Q
  = Ok [ {| label := "d"; confidence := 8700 # 100 |};
         {| label := "a"; confidence := 8100 # 100 |};
         {| label := "c"; confidence := 900 # 100 |} ].
Proof. vm_compute. reflexivity. Qed.

(** *** Sortedness through the slice, the reversal and the filter *)

Lemma StronglySorted_drop {A} (R : relation A) l n :
  StronglySorted R l -> StronglySorted R (drop n l).
Proof.
  intros Hs. rewrite <-(take_drop n l) in Hs.
  by apply StronglySorted_app_1_r in Hs.
Qed.

Lemma StronglySorted_reverse {A} (R : relation A) l :
  StronglySorted R l -> StronglySorted (flip R) (reverse l).
Proof.
  induction 1 as [|x l _ IH Hx]; [constructor|].
  rewrite reverse_cons. apply StronglySorted_app_2; [|exact IH|repeat constructor].
  intros y z Hy Hz. apply list_elem_of_singleton in Hz as ->.
  rewrite elem_of_reverse in Hy. rewrite Forall_forall in Hx.
  unfold flip. by apply Hx.
Qed.

Lemma StronglySorted_filter {A} (R : relation A) (P : A -> Prop)
    `{!forall x, Decision (P x)} l :
  StronglySorted R l -> StronglySorted R (filter P l).
Proof.
  induction 1 as [|x l _ IH Hx]; [constructor|].
  rewrite filter_cons. destruct (decide (P x)); [|done].
  constructor; [done|]. rewrite Forall_forall in Hx |- *.
  intros y Hy. apply list_elem_of_filter in Hy as [_ Hy]. by apply Hx.
Qed.

Lemma slice_last_drop {A} k (a : list A) : exists n, slice_last k a = drop n a.
Proof. destruct k; [by exists 0 | by eexists]. Qed.

Lemma length_slice_last {A} k (a : list A) : 0 < k -> length (slice_last k a) <= k.
Proof. destruct k; [lia|]. intros _. simpl. rewrite length_drop. lia. Qed.

(** *** The loop of [_predict_sync] as a filter and a map *)

Lemma confidence_of_mono r1 r2 :
  (r1 <= r2)%Q -> (confidence_of r1 <= confidence_of r2)%Q.
Proof.
  intros H. unfold confidence_of, py_round2, Qle. simpl.
  apply Z.mul_le_mono_nonneg_r; [lia|].
  apply round_half_even_mono.
  do 2 (apply Qmult_le_compat_r; [|done]). exact H.
Qed.


Lemma keeps_true threshold raw idx :
  keeps threshold raw idx = true <->
  idx < length raw /\ (threshold <= confidence_of (value raw idx))%Q.
Proof.
  unfold keeps, value. destruct (raw !! idx) as [r|] eqn:E.
  - rewrite (nth_lookup_Some _ _ _ _ E), Qle_bool_iff.
    apply lookup_lt_Some in E. split; [by intros ?; split | by intros [_ ?]].
  - apply lookup_ge_None in E. split; [done|lia].
Qed.

Lemma collect_Ok_inv class_names threshold raw idxs acc preds :
  collect class_names threshold raw idxs acc = Ok preds ->
  preds = acc ++ (entry class_names raw <$>
                  filter (fun idx => keeps threshold raw idx) idxs).
Proof.
  revert acc. induction idxs as [|idx idxs IH]; intros acc; simpl.
  { intros [= <-]. by rewrite app_nil_r. }
  destruct (raw !! idx) as [r|] eqn:Er; [|done].
  assert (Hk : keeps threshold raw idx = Qle_bool threshold (confidence_of r))
    by (unfold keeps; by rewrite Er).
  rewrite filter_cons.
  destruct (Qle_bool threshold (confidence_of r)) eqn:Ek.
  - destruct (class_names !! idx) as [name|] eqn:En; [|done].
    intros H. apply IH in H as ->.
    rewrite decide_True by (by rewrite Hk).
    rewrite fmap_cons, <-(assoc_L (++)). simpl.
    unfold entry at 2.
    by rewrite (nth_lookup_Some _ _ _ _ Er), (nth_lookup_Some _ _ _ _ En).
  - rewrite decide_False by (rewrite Hk; simpl; tauto). apply IH.
Qed.

Lemma collect_valid class_names threshold raw idxs acc :
  Forall (fun idx => idx < length raw /\ idx < length class_names) idxs ->
  exists preds, collect class_names threshold raw idxs acc = Ok preds.
Proof.
  intros Hv. revert acc. induction Hv as [|idx idxs [Hr Hn] _ IH]; intros acc; simpl.
  { by eexists. }
  apply lookup_lt_is_Some in Hr as [r ->], Hn as [name ->].
  destruct (Qle_bool _ _); apply IH.
Qed.

Lemma top_indices_subseteq top_k argsort raw :
  top_indices top_k argsort raw ⊆ argsort raw.
Proof.
  unfold top_indices. intros i Hi. rewrite elem_of_reverse in Hi.
  destruct (slice_last_drop top_k (argsort raw)) as [n E]. rewrite E in Hi.
  by eapply subseteq_drop.
Qed.

Lemma top_indices_valid top_k argsort raw :
  argsort raw ≡ₚ seq 0 (length raw) ->
  Forall (fun idx => idx < length raw) (top_indices top_k argsort raw).
Proof.
  intros Hp. rewrite Forall_forall. intros i Hi.
  apply top_indices_subseteq in Hi. rewrite Hp in Hi.
  apply elem_of_seq in Hi. lia.
Qed.

Lemma postprocess_Ok class_names top_k threshold argsort raw :
  length raw = length class_names ->
  argsort raw ≡ₚ seq 0 (length raw) ->
  postprocess class_names top_k threshold argsort raw
  = Ok (entry class_names raw <$> predicted_indices top_k threshold argsort raw).
Proof.
  intros Hlen Hp. unfold postprocess.
  destruct (collect_valid class_names threshold raw
              (top_indices top_k argsort raw) []) as [preds E].
  { eapply Forall_impl; [by apply top_indices_valid|]. simpl. lia. }
  rewrite E. by apply collect_Ok_inv in E as ->.
Qed.

Lemma predicted_indices_descending top_k threshold argsort raw :
  StronglySorted (by_value raw) (argsort raw) ->
  StronglySorted (flip (by_value raw)) (predicted_indices top_k threshold argsort raw).
Proof.
  intros Hs. unfold predicted_indices, top_indices.
  apply StronglySorted_filter, StronglySorted_reverse.
  destruct (slice_last_drop top_k (argsort raw)) as [n ->].
  by apply StronglySorted_drop.
Qed.

Lemma length_predicted_indices top_k threshold argsort raw :
  0 < top_k -> length (predicted_indices top_k threshold argsort raw) <= top_k.
Proof.
  intros Hk. unfold predicted_indices, top_indices.
  etrans; [apply length_filter|]. rewrite length_reverse.
  by apply length_slice_last.
Qed.

(** Distinct values leave an ascending argsort no choice. *)
Lemma ascending_argsort_unique raw idxs :
  (forall i j, i < j < length raw -> ~ (value raw i == value raw j)%Q) ->
  ascending_argsort raw idxs -> idxs = insertion_argsort raw.
Proof.
  intros Hd [Hp Hs].
  destruct (stable_argsort_ascending _ _ (insertion_argsort_stable raw)) as [Hp' Hs'].
  eapply StronglySorted_unique_strong; [|done..|by rewrite Hp, Hp'].
  intros i j Hi Hj Hij Hji.
  rewrite Hp in Hi. rewrite Hp' in Hj.
  apply elem_of_seq in Hi, Hj.
  assert (E : (value raw i == value raw j)%Q) by by apply Qle_antisym.
  destruct (Nat.lt_trichotomy i j) as [H|[H|H]]; [|done|].
  - destruct (Hd i j); [lia|done].
  - destruct (Hd j i); [lia|by symmetry].
Qed.

Lemma predicted_indices_kept top_k threshold argsort raw idx :
  idx ∈ predicted_indices top_k threshold argsort raw ->
  idx < length raw /\ (threshold <= confidence_of (value raw idx))%Q.
Proof.
  unfold predicted_indices. intros H. apply list_elem_of_filter in H as [H _].
  apply keeps_true. by apply Is_true_true.
Qed.

Lemma value_elem_of raw idx : idx < length raw -> value raw idx ∈ raw.
Proof.
  intros H. apply lookup_lt_is_Some in H as [r E].
  unfold value. rewrite (nth_lookup_Some _ _ _ _ E).
  by eapply list_elem_of_lookup_2.
Qed.

(** C5: for every raw vector the model returns, [_predict_sync] returns (it
    does not raise) a list of at most [top_k] entries, in descending order of
    confidence, each at or above the floor; the list is empty when every
    value rounds below the floor.  On the vector [0.81, 0.04, 0.09, 0.87] over
    the labels a, b, c, d with K = 3 and floor 5.0 it returns d 87.0, a 81.0,
    c 9.0.  [argsort] is any ascending argsort. *)
Theorem predict_sync_ranked_filtered :
  (forall class_names top_k threshold argsort model_predict image_bytes raw,
      0 < top_k ->
      model_predict image_bytes = Ok raw ->
      length raw = length class_names ->
      ascending_argsort raw (argsort raw) ->
      exists preds,
        _predict_sync class_names top_k threshold argsort model_predict image_bytes
        = Ok preds
        /\ length preds <= top_k
        /\ StronglySorted (fun p q => (confidence q <= confidence p)%Q) preds
        /\ Forall (fun p => (threshold <= confidence p)%Q) preds
        /\ (Forall (fun r => (confidence_of r < threshold)%Q) raw -> preds = []))
  /\ (forall argsort model_predict image_bytes,
        let raw := [81 # 100; 4 # 100; 9 # 100; 87 # 100]%Q in
        model_predict image_bytes = Ok raw ->
        ascending_argsort raw (argsort raw) ->
        _predict_sync ["a"; "b"; "c"; "d"] 3 5 argsort model_predict image_bytes
        = Ok [ {| label := "d"; confidence := 8700 # 100 |};
               {| label := "a"; confidence := 8100 # 100 |};
               {| label := "c"; confidence := 900 # 100 |} ]).
Proof.
  split.
  - intros class_names top_k threshold argsort model_predict image_bytes raw
      Hk Hm Hlen [Hp Hs].
    exists (entry class_names raw <$> predicted_indices top_k threshold argsort raw).
    unfold _predict_sync. rewrite Hm. simpl.
    split; [by apply postprocess_Ok|].
    split; [rewrite length_fmap; by apply length_predicted_indices|].
    split; [|split].
    + eapply StronglySorted_fmap; [|by apply predicted_indices_descending].
      intros i j Hij. simpl. by apply confidence_of_mono.
    + apply Forall_fmap, Forall_forall. intros idx Hidx. simpl.
      by apply predicted_indices_kept in Hidx as [_ ?].
    + intros Hlow.
      destruct (predicted_indices top_k threshold argsort raw) as [|idx l] eqn:E;
        [done|exfalso].
      assert (Hidx : idx ∈ predicted_indices top_k threshold argsort raw)
        by (rewrite E; left).
      apply predicted_indices_kept in Hidx as [Hlt Hge].
      rewrite Forall_forall in Hlow.
      apply (Qlt_not_le _ _ (Hlow _ (value_elem_of _ _ Hlt))), Hge.
  - intros argsort model_predict image_bytes raw Hm Ha.
    unfold _predict_sync. rewrite Hm. simpl. unfold postprocess, top_indices.
    rewrite (ascending_argsort_unique raw (argsort raw)); [by vm_compute|..|done].
    intros i j [Hij Hj] E. simpl in Hj.
    destruct i as [|[|[|[|i]]]], j as [|[|[|[|j]]]]; try lia;
      vm_compute in E; discriminate E.
Qed.

Lemma predict_sync_ranked_filtered_witness :
  exists preds,
    _predict_sync Config.CLASS_NAMES Config.TOP_K Config.CONFIDENCE_THRESHOLD
      insertion_argsort (fun _ => Ok sample_raw) [] = Ok preds
    /\ length preds <= Config.TOP_K
    /\ StronglySorted (fun p q => (confidence q <= confidence p)%Q) preds
    /\ Forall (fun p => (Config.CONFIDENCE_THRESHOLD <= confidence p)%Q) preds
    /\ (Forall (fun r => (confidence_of r < Config.CONFIDENCE_THRESHOLD)%Q) sample_raw
        -> preds = []).
Proof.
  apply (proj1 predict_sync_ranked_filtered
           Config.CLASS_NAMES Config.TOP_K Config.CONFIDENCE_THRESHOLD
           insertion_argsort (fun _ => Ok sample_raw) [] sample_raw).
  - unfold Config.TOP_K. lia.
  - reflexivity.
  - reflexivity.
  - apply stable_argsort_ascending, insertion_argsort_stable.
Defined.

Example sample_prediction :
  _predict_sync Config.CLASS_NAMES Config.TOP_K Config.CONFIDENCE_THRESHOLD
    insertion_argsort (fun _ => Ok sample_raw) []
  = Ok [ {| label := "potholes"; confidence := 8742 # 100 |};
         {| label := "walls"; confidence := 600 # 100 |} ].
Proof. vm_compute. reflexivity. Qed.

(** *** The floor and the rounding *)

Lemma filter_none {A} (P : A -> Prop) `{!forall x, Decision (P x)} l :
  Forall (fun x => ~ P x) l -> filter P l = [].
Proof.
  induction 1 as [|x l Hx _ IH]; [done|]. by rewrite filter_cons_False.
Qed.

Lemma argsort_single_peak raw idxs :
  ascending_argsort raw idxs ->
  0 < length raw ->
  (forall j, 0 < j < length raw -> (value raw j < value raw 0)%Q) ->
  exists l, idxs = l ++ [0] /\ Forall (fun j => 0 < j < length raw) l.
Proof.
  intros [Hp Hs] Hlen Hpeak.
  assert (Hnd : NoDup idxs) by (rewrite Hp; apply NoDup_seq).
  assert (H0 : 0 ∈ idxs) by (rewrite Hp; apply elem_of_seq; lia).
  apply list_elem_of_split in H0 as (l1 & l2 & ->). exists l1.
  apply NoDup_app in Hnd as (_ & Hl1 & Hnd). apply NoDup_cons in Hnd as [Hl2 _].
  assert (Hin : forall j, j ∈ l1 ++ 0 :: l2 -> j < length raw).
  { intros j Hj. rewrite Hp in Hj. apply elem_of_seq in Hj. lia. }
  split.
  - destruct l2 as [|y l2]; [done|exfalso].
    assert (Hy : y < length raw) by (apply Hin; set_solver).
    assert (y <> 0) by (intros ->; apply Hl2; left).
    assert (Hle : by_value raw 0 y).
    { eapply (StronglySorted_app_1_elem_of _ [0] (y :: l2));
        [|by left|by left].
      by apply StronglySorted_app_1_r in Hs. }
    apply (Qlt_not_le _ _ (Hpeak y ltac:(lia))), Hle.
  - rewrite Forall_forall. intros j Hj.
    assert (j <> 0) by (intros ->; apply (Hl1 0); [done|left]).
    assert (j < length raw) by (apply Hin; set_solver). lia.
Qed.

(** C10: the floor is compared with the rounded percentage: an index of the
    top K whose value is [r] has its entry in the result exactly when
    [round(r * 100, 2) >= threshold], and the entry reports that rounded
    value.  So a value whose percentage is strictly below the floor can still
    be reported: 0.04998999... (4.998999... percent, below 5.0) is reported as
    5.0 under the module's configuration. *)
Theorem floor_compares_rounded_percentage :
  (forall class_names top_k threshold argsort raw preds idx r name,
      postprocess class_names top_k threshold argsort raw = Ok preds ->
      idx ∈ top_indices top_k argsort raw ->
      raw !! idx = Some r ->
      class_names !! idx = Some name ->
      ({| label := name; confidence := py_round2 (r * 100) |} ∈ preds
       <-> (threshold <= py_round2 (r * 100))%Q))
  /\ (below_floor * 100 < Config.CONFIDENCE_THRESHOLD)%Q
  /\ (forall argsort,
        ascending_argsort (below_floor :: replicate 19 0%Q)
          (argsort (below_floor :: replicate 19 0%Q)) ->
        postprocess Config.CLASS_NAMES Config.TOP_K Config.CONFIDENCE_THRESHOLD
          argsort (below_floor :: replicate 19 0%Q)
        = Ok [ {| label := "animals"; confidence := 500 # 100 |} ]).
Proof.
  split; [|split].
  - intros class_names top_k threshold argsort raw preds idx r name Hpost Hidx Hr Hn.
    apply collect_Ok_inv in Hpost as ->. simpl.
    fold (predicted_indices top_k threshold argsort raw).
    assert (Hv : value raw idx = r) by (by apply nth_lookup_Some).
    split.
    + intros H. apply list_elem_of_fmap in H as (idx' & E & H).
      apply predicted_indices_kept in H as [_ H].
      assert (E' : py_round2 (r * 100) = confidence_of (value raw idx'))
        by exact (f_equal confidence E).
      by rewrite E'.
    + intros H. apply list_elem_of_fmap. exists idx. split.
      * unfold entry. fold (value raw idx). rewrite Hv.
        by rewrite (nth_lookup_Some _ _ _ _ Hn).
      * apply list_elem_of_filter. split; [|done].
        apply Is_true_true, keeps_true. rewrite Hv.
        split; [by eapply lookup_lt_Some | done].
  - by vm_compute.
  - intros argsort Ha.
    set (raw := below_floor :: replicate 19 0%Q) in *.
    assert (Hlen : length raw = 20) by done.
    destruct (argsort_single_peak raw (argsort raw) Ha) as (l & E & Hl).
    { rewrite Hlen. lia. }
    { intros j Hj. rewrite Hlen in Hj. destruct j as [|j]; [lia|].
      unfold value, raw. cbn [nth].
      rewrite (nth_lookup_Some _ _ _ 0%Q); [by vm_compute|].
      apply lookup_replicate_2. lia. }
    rewrite postprocess_Ok; [|done|by destruct Ha].
    assert (Hll : length l = 19).
    { destruct Ha as [Hp _]. apply Permutation_length in Hp.
      rewrite E, length_app, length_seq, Hlen in Hp. simpl in Hp. lia. }
    unfold predicted_indices, top_indices, Config.TOP_K. simpl slice_last.
    rewrite E, length_app, Hll. simpl length.
    rewrite drop_app_le by lia. rewrite reverse_snoc.
    rewrite filter_cons_True by (by vm_compute).
    rewrite filter_none; [by vm_compute|].
    rewrite Forall_forall. intros j Hj. rewrite elem_of_reverse in Hj.
    apply subseteq_drop in Hj. rewrite Forall_forall in Hl.
    apply Hl in Hj. rewrite Hlen in Hj. destruct j as [|j]; [lia|].
    unfold keeps, raw. rewrite lookup_cons.
    rewrite (lookup_replicate_2 19 0%Q j) by lia. by vm_compute.
Qed.

Lemma floor_compares_rounded_percentage_witness :
  {| label := "potholes"; confidence := py_round2 ((8742 # 10000) * 100) |}
    ∈ [ {| label := "potholes"; confidence := 8742 # 100 |};
        {| label := "walls"; confidence := 600 # 100 |} ]
  <-> (Config.CONFIDENCE_THRESHOLD <= py_round2 ((8742 # 10000) * 100))%Q.
Proof.
  apply (proj1 floor_compares_rounded_percentage
           Config.CLASS_NAMES Config.TOP_K Config.CONFIDENCE_THRESHOLD
           insertion_argsort sample_raw _ 11).
  - vm_compute. reflexivity.
  - vm_compute. left.
  - reflexivity.
  - reflexivity.
Defined.

(** *** Further facts about [_predict_sync] *)






(** *** The K highest values *)

Lemma slice_last_eq {A} k (a : list A) :
  slice_last k a = drop (if decide (k = 0) then 0 else length a - k) a.
Proof. destruct k; [done|]. by rewrite decide_False by lia. Qed.

Lemma NoDup_top_indices top_k argsort raw :
  argsort raw ≡ₚ seq 0 (length raw) -> NoDup (top_indices top_k argsort raw).
Proof.
  intros Hp. unfold top_indices. rewrite reverse_Permutation, slice_last_eq. eapply sublist_NoDup; [|apply sublist_drop].
  rewrite Hp. apply NoDup_seq.
Qed.

(** X4: [raw.argsort()[-TOP_K:][::-1]] selects the K highest values: it
    holds K distinct indices (all of them when the vector is shorter than K,
    or when K is 0, where [a[-0:]] is the whole array), and no value left
    out is above a value selected. *)
Theorem top_indices_are_highest top_k argsort raw :
  ascending_argsort raw (argsort raw) ->
  length (top_indices top_k argsort raw)
  = (if decide (top_k = 0) then length raw else Nat.min top_k (length raw))
  /\ NoDup (top_indices top_k argsort raw)
  /\ (forall i j,
        i ∈ top_indices top_k argsort raw -> j < length raw ->
        j ∉ top_indices top_k argsort raw -> (value raw j <= value raw i)%Q).
Proof.
  intros [Hp Hs]. split; [|split; [by apply NoDup_top_indices|]].
  - unfold top_indices. rewrite length_reverse, slice_last_eq, length_drop.
    rewrite (Permutation_length Hp), length_seq. case_decide; lia.
  - unfold top_indices. intros i j Hi Hj Hnj.
    rewrite elem_of_reverse, slice_last_eq in Hi, Hnj.
    set (n := if decide (top_k = 0) then 0 else length (argsort raw) - top_k) in *.
    assert (Hja : j ∈ argsort raw) by (rewrite Hp; apply elem_of_seq; lia).
    rewrite <-(take_drop n (argsort raw)) in Hja, Hs.
    apply elem_of_app in Hja as [Hja|]; [|done].
    exact (StronglySorted_app_1_elem_of _ _ _ _ _ Hs Hja Hi).
Qed.

Lemma top_indices_are_highest_witness :
  length (top_indices Config.TOP_K insertion_argsort sample_raw) = 3
  /\ NoDup (top_indices Config.TOP_K insertion_argsort sample_raw)
  /\ (value sample_raw 0 <= value sample_raw 7)%Q.
Proof.
  destruct (top_indices_are_highest Config.TOP_K insertion_argsort sample_raw)
    as (H1 & H2 & H3).
  { apply stable_argsort_ascending, insertion_argsort_stable. }
  split; [exact H1|]. split; [exact H2|].
  apply H3.
  - apply (bool_decide_unpack _). vm_compute. exact I.
  - vm_compute. lia.
  - apply (bool_decide_unpack _). vm_compute. exact I.
Defined.

(** *** Labels and failures of the loop *)

(** The loop either runs through, every reported index having a class name,
    or stops with [IndexError] at a reported index that has none. *)
Lemma collect_cases class_names threshold raw idxs acc :
  Forall (fun idx => idx < length raw) idxs ->
  (exists preds,
      collect class_names threshold raw idxs acc = Ok preds
      /\ Forall (fun idx => idx < length class_names)
           (filter (fun idx => keeps threshold raw idx) idxs))
  \/ (collect class_names threshold raw idxs acc = Raise IndexError
      /\ exists idx, idx ∈ filter (fun idx => keeps threshold raw idx) idxs
                     /\ length class_names <= idx).
Proof.
  intros Hv. revert acc. induction Hv as [|idx idxs Hr _ IH]; intros acc; simpl.
  { left. eexists. split; [done|]. constructor. }
  apply lookup_lt_is_Some in Hr as [r Er]. rewrite Er.
  assert (Hk : keeps threshold raw idx = Qle_bool threshold (confidence_of r))
    by (unfold keeps; by rewrite Er).
  rewrite filter_cons.
  destruct (Qle_bool threshold (confidence_of r)) eqn:Ek.
  - rewrite decide_True by (by rewrite Hk).
    destruct (class_names !! idx) as [name|] eqn:En.
    + apply lookup_lt_Some in En.
      destruct (IH (acc ++ [{| label := name; confidence := confidence_of r |}]))
        as [(preds & E & Hn)|(E & idx' & Hin & Hge)].
      * left. exists preds. split; [done|]. by constructor.
      * right. split; [done|]. exists idx'. split; [by right|done].
    + apply lookup_ge_None in En. right. split; [done|].
      exists idx. split; [left|done].
  - rewrite decide_False by (rewrite Hk; simpl; tauto). apply IH.
Qed.

Lemma NoDup_class_names : NoDup Config.CLASS_NAMES.
Proof. apply (bool_decide_unpack _). vm_compute. exact I. Qed.

Lemma entry_labels_NoDup class_names raw idxs :
  NoDup class_names -> NoDup idxs ->
  Forall (fun idx => idx < length class_names) idxs ->
  NoDup (label <$> (entry class_names raw <$> idxs)).
Proof.
  intros Hc Hi Hn. rewrite Forall_forall in Hn.
  rewrite <-list_fmap_compose. apply NoDup_fmap_2_strong; [|done].
  intros i j Hi' Hj'. simpl. apply Hn in Hi', Hj'.
  apply lookup_lt_is_Some in Hi' as [a Ea], Hj' as [b Eb].
  rewrite (nth_lookup_Some _ _ _ _ Ea), (nth_lookup_Some _ _ _ _ Eb).
  intros <-. exact (NoDup_lookup _ _ _ _ Hc Ea Eb).
Qed.

Lemma entry_sources class_names raw idxs :
  Forall (fun idx => idx < length class_names /\ idx < length raw) idxs ->
  Forall (fun p => exists idx r,
              class_names !! idx = Some (label p)
              /\ raw !! idx = Some r
              /\ confidence p = confidence_of r)
    (entry class_names raw <$> idxs).
Proof.
  intros Hv. apply Forall_fmap. eapply Forall_impl; [done|].
  intros idx [Hn Hr]. simpl.
  apply lookup_lt_is_Some in Hn as [name En], Hr as [r Er].
  exists idx, r. by rewrite (nth_lookup_Some _ _ _ _ En), (nth_lookup_Some _ _ _ _ Er).
Qed.

(** X5: every entry [run_inference] returns pairs the class name at some
    index of [CLASS_NAMES] with the confidence of the model's value at the
    same index, and no label is reported twice. *)
Theorem run_inference_labels_match_scores
    (argsort : list Q -> list nat) (model_predict : bytes -> result (list Q))
    (image_bytes : bytes) (preds : list prediction) :
  (forall raw, argsort raw ≡ₚ seq 0 (length raw)) ->
  run_inference argsort model_predict image_bytes = Ok preds ->
  exists raw,
    model_predict image_bytes = Ok raw
    /\ NoDup (label <$> preds)
    /\ Forall (fun p => exists idx r,
                   Config.CLASS_NAMES !! idx = Some (label p)
                   /\ raw !! idx = Some r
                   /\ confidence p = confidence_of r) preds.
Proof.
  intros Hp. unfold run_inference, _predict_sync.
  destruct (model_predict image_bytes) as [raw|e]; simpl; [|done].
  intros E. exists raw. split; [done|].
  unfold postprocess in E.
  destruct (collect_cases Config.CLASS_NAMES Config.CONFIDENCE_THRESHOLD raw
              (top_indices Config.TOP_K argsort raw) [])
    as [(preds' & E' & Hn)|(E' & _)]; [by apply top_indices_valid| |congruence].
  apply collect_Ok_inv in E as ->. rewrite app_nil_l.
  fold (predicted_indices Config.TOP_K Config.CONFIDENCE_THRESHOLD argsort raw) in *.
  split.
  - apply entry_labels_NoDup; [apply NoDup_class_names| |done].
    apply NoDup_filter. by apply NoDup_top_indices.
  - apply entry_sources. rewrite Forall_forall in Hn |- *.
    intros idx Hidx. split; [by apply Hn|].
    by apply predicted_indices_kept in Hidx as [Hr _].
Qed.

Lemma run_inference_labels_match_scores_witness :
  exists raw,
    Ok sample_raw = Ok raw
    /\ NoDup (label <$> [ {| label := "potholes"; confidence := 8742 # 100 |};
                          {| label := "walls"; confidence := 600 # 100 |} ])
    /\ Forall (fun p => exists idx r,
                   Config.CLASS_NAMES !! idx = Some (label p)
                   /\ raw !! idx = Some r
                   /\ confidence p = confidence_of r)
         [ {| label := "potholes"; confidence := 8742 # 100 |};
           {| label := "walls"; confidence := 600 # 100 |} ].
Proof.
  apply (run_inference_labels_match_scores insertion_argsort
           (fun _ => Ok sample_raw) []).
  - intros raw. apply insertion_argsort_stable.
  - vm_compute. reflexivity.
Defined.

(** X6: how [_predict_sync] fails.  An exception of the decoding or of the
    model is passed on.  On a vector the model returns, the only exception
    is [IndexError], raised exactly when an index among the K highest passes
    the floor and has no class name; a vector no longer than [CLASS_NAMES]
    never raises. *)
Theorem predict_sync_failures
    (class_names : list string) (top_k : nat) (threshold : Q)
    (argsort : list Q -> list nat) (model_predict : bytes -> result (list Q))
    (image_bytes : bytes) :
  (forall e,
      model_predict image_bytes = Raise e ->
      _predict_sync class_names top_k threshold argsort model_predict image_bytes
      = Raise e)
  /\ (forall raw,
        model_predict image_bytes = Ok raw ->
        argsort raw ≡ₚ seq 0 (length raw) ->
        (_predict_sync class_names top_k threshold argsort model_predict image_bytes
         = Raise IndexError
         <-> exists idx, idx ∈ predicted_indices top_k threshold argsort raw
                         /\ length class_names <= idx)
        /\ (forall e,
              _predict_sync class_names top_k threshold argsort model_predict
                image_bytes = Raise e -> e = IndexError)
        /\ (length raw <= length class_names ->
            exists preds,
              _predict_sync class_names top_k threshold argsort model_predict
                image_bytes = Ok preds)).
Proof.
  unfold _predict_sync. split.
  { by intros e ->. }
  intros raw -> Hp. simpl. unfold postprocess, predicted_indices.
  destruct (collect_cases class_names threshold raw (top_indices top_k argsort raw) [])
    as [(preds & E & Hn)|(E & idx & Hin & Hge)]; [by apply top_indices_valid|..];
    rewrite E.
  - rewrite Forall_forall in Hn. split; [split; [done|]|split; [done|by eexists]].
    intros (idx & Hin & Hge). apply Hn in Hin. lia.
  - split; [split; [by eexists|done]|split; [by intros e [= <-]|]].
    intros Hlen. apply list_elem_of_filter in Hin as [_ Hin].
    pose proof (top_indices_valid top_k argsort raw Hp) as Hv.
    rewrite Forall_forall in Hv. apply Hv in Hin. lia.
Qed.

Lemma predict_sync_failures_witness :
  _predict_sync ["a"; "b"] 3 5 insertion_argsort
    (fun _ => Ok [1 # 10; 2 # 10; 7 # 10]%Q) []
  = Raise IndexError.
Proof.
  destruct (predict_sync_failures ["a"; "b"] 3 5 insertion_argsort
              (fun _ => Ok [1 # 10; 2 # 10; 7 # 10]%Q) []) as [_ H].
  destruct (H [1 # 10; 2 # 10; 7 # 10]%Q) as (H1 & _ & _).
  - reflexivity.
  - apply insertion_argsort_stable.
  - apply H1. exists 2. split.
    + apply (bool_decide_unpack _). vm_compute. exact I.
    + simpl. lia.
Defined.

(** *** Ties and the confidences *)

Lemma fmap_filter_comm {A B} (f : A -> B) (p : B -> bool) (l : list A) :
  f <$> filter (fun x => p (f x)) l = filter (fun y => p y) (f <$> l).
Proof.
  induction l as [|x l IH]; [done|].
  rewrite fmap_cons, !filter_cons.
  destruct (decide (p (f x))); [rewrite fmap_cons|]; by rewrite IH.
Qed.

Lemma filter_keeps_confidence threshold raw idxs :
  Forall (fun idx => idx < length raw) idxs ->
  filter (fun idx => keeps threshold raw idx) idxs
  = filter (fun idx => Qle_bool threshold (confidence_of (value raw idx))) idxs.
Proof.
  intros Hv. induction Hv as [|idx idxs Hr _ IH]; [done|].
  rewrite !filter_cons, IH.
  assert (E : keeps threshold raw idx
              = Qle_bool threshold (confidence_of (value raw idx))).
  { apply lookup_lt_is_Some in Hr as [r Er]. unfold keeps, value.
    by rewrite Er, (nth_lookup_Some _ _ _ _ Er). }
  by rewrite E.
Qed.

Lemma confidence_of_antisym r1 r2 :
  (confidence_of r1 <= confidence_of r2)%Q ->
  (confidence_of r2 <= confidence_of r1)%Q ->
  confidence_of r1 = confidence_of r2.
Proof.
  unfold confidence_of, py_round2, Qle. simpl. intros H1 H2. f_equal. lia.
Qed.

(** The confidences along an ascending argsort do not depend on it. *)
Lemma ascending_confidences raw idxs1 idxs2 :
  ascending_argsort raw idxs1 -> ascending_argsort raw idxs2 ->
  (fun idx => confidence_of (value raw idx)) <$> idxs1
  = (fun idx => confidence_of (value raw idx)) <$> idxs2.
Proof.
  intros [Hp1 Hs1] [Hp2 Hs2].
  apply (StronglySorted_unique_strong Qle).
  - intros x1 x2 Hx1 Hx2.
    apply list_elem_of_fmap in Hx1 as (i & -> & _), Hx2 as (j & -> & _).
    apply confidence_of_antisym.
  - eapply StronglySorted_fmap; [|done]. intros i j. apply confidence_of_mono.
  - eapply StronglySorted_fmap; [|done]. intros i j. apply confidence_of_mono.
  - by rewrite Hp1, Hp2.
Qed.

(** X7: the confidences [_predict_sync] reports do not depend on how the
    sort orders equal values: two ascending argsorts give the same list of
    confidences, and, on a vector whose values are pairwise different, the
    same entries. *)
Theorem confidences_independent_of_ties
    (class_names : list string) (top_k : nat) (threshold : Q)
    (argsort1 argsort2 : list Q -> list nat) (raw : list Q) :
  length raw = length class_names ->
  ascending_argsort raw (argsort1 raw) ->
  ascending_argsort raw (argsort2 raw) ->
  exists preds1 preds2,
    postprocess class_names top_k threshold argsort1 raw = Ok preds1
    /\ postprocess class_names top_k threshold argsort2 raw = Ok preds2
    /\ confidence <$> preds1 = confidence <$> preds2
    /\ ((forall i j, i < j < length raw -> ~ (value raw i == value raw j)%Q) ->
        preds1 = preds2).
Proof.
  intros Hlen H1 H2. pose proof H1 as [Hp1 _]. pose proof H2 as [Hp2 _].
  eexists _, _. split; [by apply postprocess_Ok|]. split; [by apply postprocess_Ok|].
  split.
  - rewrite <-!list_fmap_compose. unfold predicted_indices.
    rewrite !filter_keeps_confidence by (by apply top_indices_valid).
    change (confidence ∘ entry class_names raw)
      with (fun idx => confidence_of (value raw idx)).
    rewrite !(fmap_filter_comm (fun idx => confidence_of (value raw idx))
                (Qle_bool threshold)).
    unfold top_indices. rewrite !slice_last_eq, !fmap_reverse, !fmap_drop.
    rewrite (ascending_confidences raw _ _ H1 H2).
    by rewrite (Permutation_length Hp1), (Permutation_length Hp2).
  - intros Hd. unfold predicted_indices, top_indices.
    by rewrite (ascending_argsort_unique raw _ Hd H1),
      (ascending_argsort_unique raw _ Hd H2).
Qed.

Lemma confidences_independent_of_ties_witness :
  exists preds1 preds2,
    postprocess ["a"; "b"; "c"; "d"] 3 5 insertion_argsort tie_raw = Ok preds1
    /\ postprocess ["a"; "b"; "c"; "d"] 3 5 (fun _ => [2; 3; 1; 0]) tie_raw
       = Ok preds2
    /\ confidence <$> preds1 = confidence <$> preds2.
Proof.
  destruct (confidences_independent_of_ties ["a"; "b"; "c"; "d"] 3 5
              insertion_argsort (fun _ => [2; 3; 1; 0]) tie_raw)
    as (preds1 & preds2 & E1 & E2 & Ec & _).
  - reflexivity.
  - apply stable_argsort_ascending, insertion_argsort_stable.
  - split.
    + apply (bool_decide_unpack _). vm_compute. exact I.
    + repeat constructor; by vm_compute.
  - by exists preds1, preds2.
Defined.

Lemma entry_label_elem_of class_names raw idx :
  idx < length class_names -> label (entry class_names raw idx) ∈ class_names.
Proof.
  intros H. apply lookup_lt_is_Some in H as [name E]. simpl.
  rewrite (nth_lookup_Some _ _ _ _ E). by eapply list_elem_of_lookup_2.
Qed.

End ModelWorkerFacts.

(** * Facts about the executor *)
Module ExecutorFacts.
Import Executor.

Lemma new_pool_inv n : pool_inv (new_pool n).
Proof. split; simpl; [lia|done]. Qed.

Lemma pool_step_max_workers p ev : max_workers (pool_step p ev) = max_workers p.
Proof.
  destruct ev; simpl; [done| |done].
  case_decide; [|done]. by destruct (work_queue p).
Qed.

Lemma pool_step_inv p ev : pool_inv p -> pool_inv (pool_step p ev).
Proof.
  intros Hp. pose proof Hp as [Hb Hf]. destruct ev as [job| |worker]; simpl.
  - split; simpl; [done|]. by rewrite (assoc_L (++)), Hf.
  - case_decide as Hfree; [|done].
    destruct (work_queue p) as [|job rest] eqn:Eq; [done|].
    split; simpl.
    + rewrite length_app. simpl. lia.
    + by rewrite <-(assoc_L (++)).
  - split; simpl; [|done].
    etrans; [apply sublist_length, sublist_delete|done].
Qed.

Lemma pool_run_inv evs p :
  pool_inv p ->
  pool_inv (pool_run evs p) /\ max_workers (pool_run evs p) = max_workers p.
Proof.
  revert p. induction evs as [|ev evs IH]; intros p Hp; simpl; [done|].
  destruct (IH (pool_step p ev) (pool_step_inv _ _ Hp)) as [Hinv Hmax].
  split; [done|]. by rewrite Hmax, pool_step_max_workers.
Qed.

(** C9: whatever is submitted to [_executor], by however many connections
    and requests, at most [MAX_INFERENCE_WORKERS] classifier calls execute at
    any time, and the calls start in the order of their submission: the
    submissions still waiting are the rest of that order. *)
Theorem executor_bounds_concurrency (env : option Z) (evs : list pool_event) :
  length (executing (pool_run evs (_executor env)))
    <= Z.to_nat (Config.MAX_INFERENCE_WORKERS env)
  /\ dispatched (pool_run evs (_executor env))
       ++ work_queue (pool_run evs (_executor env))
     = submitted (pool_run evs (_executor env)).
Proof.
  destruct (pool_run_inv evs (_executor env) (new_pool_inv _)) as [[Hb Hf] Hmax].
  split; [|done]. by rewrite Hmax in Hb.
Qed.

Example three_submissions_two_workers :
  let p := pool_run [Submit [Byte.x01]; Submit [Byte.x02]; Submit [Byte.x03];
                     Dispatch; Dispatch; Dispatch] (_executor None) in
  executing p = [[Byte.x01]; [Byte.x02]] /\ work_queue p = [[Byte.x03]].
Proof. by vm_compute. Qed.

End ExecutorFacts.

(** * Facts about the handlers of main.py *)
Module MainFacts.
Import Main.

(** C8, as the code has it: when the classifier's output dimension differs
    from the number of class names, the initialisation of [model_worker]
    raises and the process does not start.  When they are equal the check
    passes, and the process serves if the pool size is at least one, as it
    is by default; with a pool size of zero or less the construction of the
    executor raises [ValueError] and the process does not start either. *)
Theorem startup_checks_label_count (output_dim env : option Z) :
  (output_dim ≠ Some (Z.of_nat (length Config.CLASS_NAMES)) ->
     ModelWorker.module_init output_dim (Config.MAX_INFERENCE_WORKERS env)
     = Raise (ValueError (ModelWorker.mismatch_message output_dim))
     /\ start output_dim env
        = NotStarted (ValueError (ModelWorker.mismatch_message output_dim)))
  /\ (output_dim = Some (Z.of_nat (length Config.CLASS_NAMES)) ->
      (0 < Config.MAX_INFERENCE_WORKERS env)%Z ->
      start output_dim env
      = Serving (ModelWorker.ThreadPoolExecutor (Config.MAX_INFERENCE_WORKERS env)))
  /\ (output_dim = Some (Z.of_nat (length Config.CLASS_NAMES)) ->
      (Config.MAX_INFERENCE_WORKERS env <= 0)%Z ->
      start output_dim env
      = NotStarted (ValueError "max_workers must be greater than 0"))
  /\ start (Some (Z.of_nat (length Config.CLASS_NAMES))) None
     = Serving (ModelWorker.ThreadPoolExecutor 2).
Proof.
  unfold start, ModelWorker.module_init. split; [|split; [|split]].
  - intros Hne. by rewrite decide_True.
  - intros -> Hpos. rewrite decide_False by (by intros []).
    by rewrite decide_False by lia.
  - intros -> Hpos. rewrite decide_False by (by intros []).
    by rewrite decide_True by lia.
  - done.
Qed.

Lemma startup_checks_label_count_witness :
  (ModelWorker.module_init (Some 19%Z) (Config.MAX_INFERENCE_WORKERS None)
   = Raise (ValueError (ModelWorker.mismatch_message (Some 19%Z)))
   /\ start (Some 19%Z) None
      = NotStarted (ValueError (ModelWorker.mismatch_message (Some 19%Z))))
  /\ start (Some 20%Z) (Some 4%Z)
     = Serving (ModelWorker.ThreadPoolExecutor (Config.MAX_INFERENCE_WORKERS (Some 4%Z))).
Proof.
  split.
  - apply (proj1 (startup_checks_label_count (Some 19%Z) None)).
    discriminate.
  - apply (proj1 (proj2 (startup_checks_label_count (Some 20%Z) (Some 4%Z)))).
    + reflexivity.
    + reflexivity.
Defined.

(** C8 as the claim states it fails: the model's output has the 20
    dimensions of [CLASS_NAMES], the environment sets MAX_INFERENCE_WORKERS
    to 0, and the process does not start. *)
Lemma equal_dimensions_without_workers :
  Some 20%Z = Some (Z.of_nat (length Config.CLASS_NAMES))
  /\ Config.MAX_INFERENCE_WORKERS (Some 0%Z) = 0%Z
  /\ start (Some 20%Z) (Some 0%Z)
     = NotStarted (ValueError "max_workers must be greater than 0").
Proof. repeat split. Qed.

Example mismatch_message_19 :
  ModelWorker.mismatch_message (Some 19%Z)
  = "Model output (19 classes) != CLASS_NAMES (20 classes). Retrain or update config.".
Proof. by vm_compute. Qed.

(** C6: an upload whose content type is not one of the allowed image types
    (or is missing), or whose body is longer than [MAX_UPLOAD_BYTES], is
    answered with status 400 and an error message, and [run_inference] is not
    called for it: the list of calls is unchanged. *)
Theorem predict_image_rejects
    (run_inference : bytes -> result (list prediction))
    (file : UploadFile) (calls : list bytes) :
  (forall t, content_type file = Some t -> t ∉ Config.ALLOWED_MIME_TYPES)
  \/ (Config.MAX_UPLOAD_BYTES < Z.of_nat (length (contents file)))%Z ->
  exists msg,
    predict_image run_inference file calls
    = ({| status_code := 400; content := ErrorBody msg |}, calls).
Proof.
  intros H. unfold predict_image.
  destruct (allowed_type (content_type file)) eqn:Ea; [|by eexists].
  destruct H as [H|H].
  - exfalso. unfold allowed_type in Ea.
    destruct (content_type file) as [t|]; [|done].
    apply bool_decide_eq_true in Ea. by apply (H t).
  - rewrite decide_True by done. by eexists.
Qed.

Lemma predict_image_rejects_witness :
  exists msg,
    predict_image (fun _ => Ok [])
      {| content_type := Some "text/plain"; filename := Some "notes.txt";
         contents := [Byte.x68; Byte.x69] |} []
    = ({| status_code := 400; content := ErrorBody msg |}, []).
Proof.
  apply predict_image_rejects. left. simpl. intros t [= <-].
  by vm_compute.
Defined.

Example predict_image_text_plain :
  predict_image (fun _ => Ok [])
    {| content_type := Some "text/plain"; filename := Some "notes.txt";
       contents := [Byte.x68; Byte.x69] |} []
  = ({| status_code := 400;
        content := ErrorBody "Unsupported type 'text/plain'." |}, []).
Proof. by vm_compute. Qed.

Example predict_image_accepted :
  predict_image (fun _ => Ok [])
    {| content_type := Some "image/png"; filename := Some "a.png";
       contents := [Byte.x68; Byte.x69] |} []
  = ({| status_code := 200; content := PredictionBody (Some "a.png") [] |},
     [[Byte.x68; Byte.x69]]).
Proof. by vm_compute. Qed.

(** *** The connection: what every reachable state satisfies *)

Lemma arrivals_Arrived f h : arrivals (Arrived f :: h) = f :: arrivals h.
Proof. done. Qed.
Lemma arrivals_Started f h : arrivals (Started f :: h) = arrivals h.
Proof. done. Qed.
Lemma arrivals_Finished f h : arrivals (Finished f :: h) = arrivals h.
Proof. done. Qed.
Lemma starts_Arrived f h : starts (Arrived f :: h) = starts h.
Proof. done. Qed.
Lemma starts_Started f h : starts (Started f :: h) = f :: starts h.
Proof. done. Qed.
Lemma starts_Finished f h : starts (Finished f :: h) = starts h.
Proof. done. Qed.

Create Rewrite HintDb hist.
#[local] Hint Rewrite arrivals_Arrived arrivals_Started arrivals_Finished
  starts_Arrived starts_Started starts_Finished : hist.

#[local] Arguments arrivals : simpl never.
#[local] Arguments starts : simpl never.
#[local] Arguments latest : simpl never.

Lemma mailbox_inv_ext s s' :
  pending_frame s' = pending_frame s ->
  accepted s' = accepted s ->
  history s' = history s ->
  mailbox_inv s -> mailbox_inv s'.
Proof.
  intros Ep Ea Eh [H1 H2 H3 H4 H5].
  split; rewrite ?Ep, ?Ea, ?Eh; done.
Qed.

Lemma mailbox_not_started s f :
  mailbox_inv s -> pending_frame s = Some f ->
  latest (history s) = Some f /\ (f ∉ starts (history s))
  /\ seq f < accepted s.
Proof.
  intros [H1 H2 H3 _ _] Ep. rewrite Ep in H3.
  destruct H3 as (older & Ea & Hsub). unfold latest. rewrite Ea in H1, H2 |- *.
  apply Forall_cons in H1 as [Hf _].
  apply StronglySorted_cons in H2 as [Hlt _].
  repeat split; [|done].
  intros Hin. apply (sublist_subseteq _ _ Hsub) in Hin.
  rewrite Forall_forall in Hlt. apply Hlt in Hin. lia.
Qed.

Lemma mailbox_put frame_bytes s : mailbox_inv s -> mailbox_inv (put frame_bytes s).
Proof.
  intros [H1 H2 H3 H4 H5]. split; simpl; autorewrite with hist; [| | |done|done].
  - constructor; [simpl; lia|]. eapply Forall_impl; [done|]. simpl. lia.
  - constructor; [done|]. done.
  - eexists. split; [done|].
    destruct (pending_frame s) as [f|].
    + destruct H3 as (older & -> & Hsub). by constructor.
    + by destruct H3.
Qed.

Lemma mailbox_pick_up s :
  mailbox_inv s -> in_flight (history s) = [] -> mailbox_inv (pick_up s).
Proof.
  intros Hinv Hidle. unfold pick_up.
  destruct (pending_frame s) as [f|] eqn:Ep.
  - destruct (mailbox_not_started s f Hinv Ep) as (Hl & Hn & _).
    destruct Hinv as [H1 H2 H3 H4 H5]. rewrite Ep in H3.
    destruct H3 as (older & Ea & Hsub).
    split; simpl; autorewrite with hist; [done|done| | |done].
    + rewrite Ea. split; [by constructor|]. unfold latest.
      autorewrite with hist. by rewrite Ea.
    + rewrite Hidle, H4. by rewrite bool_decide_eq_true_2.
  - eapply mailbox_inv_ext; [| | |done]; simpl; done.
Qed.

Lemma mailbox_finished s s' f :
  pending_frame s' = pending_frame s ->
  accepted s' = accepted s ->
  history s' = Finished f :: history s ->
  mailbox_inv s -> mailbox_inv s'.
Proof.
  intros Ep Ea Eh [H1 H2 H3 H4 H5].
  split; rewrite ?Ep, ?Ea, ?Eh; unfold latest; autorewrite with hist; done.
Qed.

Lemma in_flight_finished f h : in_flight h = [f] -> in_flight (Finished f :: h) = [].
Proof. intros E. simpl. rewrite E. by rewrite filter_cons_False by tauto. Qed.

Lemma conn_inv_accept : conn_inv accept.
Proof.
  split; [split; simpl; try done; constructor|]. by simpl.
Qed.

Lemma ending_closed e s : ~ handler_open (set_handler (ending e) s).
Proof. unfold handler_open. simpl. destruct e; simpl; tauto. Qed.

Lemma conn_inv_leave e s : conn_inv s -> conn_inv (leave (ending e) s).
Proof.
  intros [Hm Hl]. split.
  - eapply mailbox_inv_ext; [..|exact Hm]; unfold leave, cancel_loop;
      by destruct (loop_task s).
  - pose proof (ending_closed e) as Hc.
    unfold loop_inv, leave, cancel_loop in Hl |- *.
    destruct (loop_task s) as [|f|msg handling| |] eqn:E; simpl; rewrite ?E; simpl.
    + destruct Hl as (-> & -> & _). simpl. split; [lia|]. split; [done|apply Hc].
    + destruct Hl as (-> & _ & _). simpl. split; [lia|]. split; [done|apply Hc].
    + destruct Hl as (-> & _ & _). simpl. split; [lia|]. split; [done|apply Hc].
    + by destruct Hl.
    + destruct Hl as (? & ? & ?). split; [done|]. split; [done|apply Hc].
Qed.

(** While [ws_predict] runs, what it awaits does not matter to the loop. *)
Lemma conn_inv_set_handler st s :
  handler_open s -> handler_open (set_handler st s) ->
  conn_inv s -> conn_inv (set_handler st s).
Proof.
  intros Ho Ho' [Hm Hl]. split; [by eapply mailbox_inv_ext; [..|exact Hm]|].
  unfold loop_inv in Hl |- *. simpl.
  destruct (loop_task s); try done; by destruct Hl as (? & ? & ?).
Qed.

Lemma conn_inv_add_sent msg s : conn_inv s -> conn_inv (add_sent msg s).
Proof.
  intros [Hm Hl]. split; [by eapply mailbox_inv_ext; [..|exact Hm]|done].
Qed.

Lemma conn_inv_reply_error msg s :
  handler_open s -> conn_inv s -> conn_inv (reply_error msg s).
Proof. intros Ho. by apply conn_inv_set_handler. Qed.

Lemma conn_inv_put frame_bytes s : conn_inv s -> conn_inv (put frame_bytes s).
Proof.
  intros [Hm Hl]. split; [by apply mailbox_put|].
  unfold loop_inv in *. simpl. done.
Qed.

Lemma conn_inv_pick_up s :
  mailbox_inv s -> in_flight (history s) = [] -> busy s = false ->
  handler_open s -> conn_inv (pick_up s).
Proof.
  intros Hm Hidle Hb Hh. split; [by apply mailbox_pick_up|].
  unfold loop_inv, pick_up. destruct (pending_frame s); simpl; by rewrite ?Hidle.
Qed.

Lemma mailbox_move_ext s s1 s' :
  pending_frame s1 = pending_frame s ->
  accepted s1 = accepted s ->
  starts (history s1) = starts (history s) ->
  arrivals (history s1) = arrivals (history s) ->
  loop_task s1 = loop_task s ->
  mailbox_move s1 s' -> mailbox_move s s'.
Proof.
  intros Ep Ea Es Er El [H1 H2 H3 H4|f H1 H2 H3 H4 H5 H6|f H1 H2 H3 H4 H5].
  - apply move_none; congruence.
  - apply (move_put _ _ f); congruence.
  - apply (move_take _ _ f); congruence.
Qed.

Lemma move_leave st s : mailbox_move s (leave st s).
Proof.
  apply move_none; unfold leave, cancel_loop; by destruct (loop_task s).
Qed.

Lemma move_pick_up s : mailbox_move s (pick_up s).
Proof.
  unfold pick_up. destruct (pending_frame s) as [f|] eqn:E.
  - by apply (move_take _ _ f).
  - by apply move_none.
Qed.

Section Connection.
Variable json_loads : string -> result json.
Variable b64decode : string -> option bytes.
Variable run_inference : bytes -> result (list prediction).

#[local] Abbreviation on_text := (Main.on_text json_loads b64decode).
#[local] Abbreviation on_done := (Main.on_done run_inference).
#[local] Abbreviation step := (Main.step json_loads b64decode run_inference).
#[local] Abbreviation run := (Main.run json_loads b64decode run_inference).

Lemma move_on_text raw s : mailbox_move s (on_text raw s).
Proof.
  unfold Main.on_text. destruct (too_large raw); [by apply move_none|].
  destruct (json_loads raw) as [msg|[]];
    [|first [by apply move_leave|by apply move_none]..].
  destruct (has_frame msg) as [[|]|e];
    [|by apply move_none|apply move_leave].
  destruct (frame_bytes_of b64decode msg) as [frame_bytes|];
    [|by apply move_none].
  by eapply move_put.
Qed.

Lemma step_move s ev : mailbox_move s (step s ev).
Proof.
  destruct ev as [raw|e|outcome| |latency|outcome]; simpl.
  - destruct (handler s); [apply move_on_text|by apply move_none..].
  - destruct (handler s); [apply move_leave|by apply move_none..].
  - destruct (handler s); try (by apply move_none).
    destruct outcome; [by apply move_none|apply move_leave].
  - destruct (loop_task s); [apply move_pick_up|by apply move_none..].
  - destruct (loop_task s); try (by apply move_none).
    unfold Main.on_done. destruct (run_inference _); by apply move_none.
  - destruct (loop_task s) as [| |msg handling| |]; try (by apply move_none).
    destruct outcome as [|e]; simpl.
    + eapply mailbox_move_ext; [..|apply move_pick_up]; done.
    + destruct handling; by apply move_none.
Qed.

Lemma conn_inv_on_text raw s :
  handler s = Receiving -> conn_inv s -> conn_inv (on_text raw s).
Proof.
  intros Hh Hinv.
  assert (Ho : handler_open s) by (unfold handler_open; by rewrite Hh).
  unfold Main.on_text.
  destruct (too_large raw); [by apply conn_inv_reply_error|].
  destruct (json_loads raw) as [msg|[]];
    [|first [by apply conn_inv_leave|by apply conn_inv_reply_error]..].
  destruct (has_frame msg) as [[|]|e];
    [|by apply conn_inv_reply_error|by apply conn_inv_leave].
  destruct (frame_bytes_of b64decode msg) as [frame_bytes|];
    [by apply conn_inv_put|by apply conn_inv_reply_error].
Qed.

Lemma conn_inv_on_reply msg outcome s :
  handler s = Replying msg -> conn_inv s -> conn_inv (on_reply msg outcome s).
Proof.
  intros Hh Hinv. destruct outcome as [|e]; simpl; [|by apply conn_inv_leave].
  apply conn_inv_set_handler; [|done|by apply conn_inv_add_sent].
  unfold handler_open. simpl. by rewrite Hh.
Qed.

Lemma conn_inv_on_done f latency s :
  conn_inv s -> loop_task s = Inferring f -> conn_inv (on_done f latency s).
Proof.
  intros [Hm Hl] E. unfold loop_inv in Hl. rewrite E in Hl.
  destruct Hl as (Hfl & Hb & Hh). apply in_flight_finished in Hfl.
  unfold Main.on_done.
  destruct (run_inference (data f)) as [preds|e];
    (split; [by eapply (mailbox_finished s _ f)|]);
    unfold loop_inv; simpl; done.
Qed.

Lemma conn_inv_on_sent msg handling outcome s :
  conn_inv s -> loop_task s = Sending msg handling ->
  conn_inv (on_sent msg handling outcome s).
Proof.
  intros [Hm Hl] E. unfold loop_inv in Hl. rewrite E in Hl.
  destruct Hl as (Hfl & Hb & Hh).
  destruct outcome as [|e]; simpl.
  - apply conn_inv_pick_up; [|done..].
    by eapply mailbox_inv_ext; [..|exact Hm].
  - destruct handling;
      (split; [by eapply mailbox_inv_ext; [..|exact Hm]|]);
      unfold loop_inv; simpl; done.
Qed.

Lemma conn_inv_step s ev : conn_inv s -> conn_inv (step s ev).
Proof.
  intros Hinv. destruct ev as [raw|e|outcome| |latency|outcome]; simpl.
  - destruct (handler s) eqn:E; [by apply conn_inv_on_text|done..].
  - destruct (handler s); [by apply conn_inv_leave|done..].
  - destruct (handler s) eqn:E; [done|by apply conn_inv_on_reply|done..].
  - destruct (loop_task s) eqn:E; [|done..].
    destruct Hinv as [Hm Hl]. unfold loop_inv in Hl. rewrite E in Hl.
    destruct Hl as (? & ? & ?). by apply conn_inv_pick_up.
  - destruct (loop_task s) eqn:E; [done| |done..].
    by apply conn_inv_on_done.
  - destruct (loop_task s) eqn:E; [done|done| |done..].
    by apply conn_inv_on_sent.
Qed.

Lemma conn_inv_run evs s : conn_inv s -> conn_inv (run evs s).
Proof.
  revert s. induction evs as [|ev evs IH]; intros s Hinv; simpl; [done|].
  by apply IH, conn_inv_step.
Qed.

Lemma conn_inv_reachable evs : conn_inv (run evs accept).
Proof. apply conn_inv_run, conn_inv_accept. Qed.

(** **** Frames that can still be processed *)

Lemma step_low_water s ev :
  conn_inv s ->
  low_water s <= low_water (step s ev)
  /\ forall g, g ∈ starts (history (step s ev)) ->
               g ∈ starts (history s) \/ low_water s <= seq g.
Proof.
  intros [Hm _]. unfold low_water.
  assert (Hp : forall p, pending_frame s = Some p -> seq p < accepted s).
  { intros p Ep. by destruct (mailbox_not_started s p Hm Ep) as (_ & _ & ?). }
  destruct (step_move s ev) as [H1 H2 H3 H4|f H1 H2 H3 H4 H5 H6|f H1 H2 H3 H4 H5].
  - rewrite H1, H2, H3. split; [done|by left].
  - rewrite H1, H2, H4. split; [|by left].
    destruct (pending_frame s) as [p|] eqn:Ep; [specialize (Hp p eq_refl)|]; lia.
  - rewrite H1, H2, H3, H4. specialize (Hp f H1). split; [lia|].
    intros g Hg. apply elem_of_cons in Hg as [->|Hg]; [by right|by left].
Qed.

Lemma run_low_water evs s g :
  conn_inv s ->
  g ∈ starts (history (run evs s)) ->
  g ∈ starts (history s) \/ low_water s <= seq g.
Proof.
  revert s. induction evs as [|ev evs IH]; intros s Hinv Hg; simpl in *; [by left|].
  destruct (step_low_water s ev Hinv) as [Hlw Hst].
  apply IH in Hg; [|by apply conn_inv_step].
  destruct Hg as [Hg|Hg]; [by apply Hst|right; lia].
Qed.

Lemma picks_latest_split h later f earlier :
  picks_latest h -> h = later ++ Started f :: earlier ->
  latest earlier = Some f /\ (f ∉ starts earlier).
Proof.
  revert h. induction later as [|o later IH]; intros h Hp ->; simpl in Hp.
  - by destruct Hp as (? & ? & _).
  - eapply IH; [|done]. destruct o; [done| |done]. by destruct Hp as (_ & _ & ?).
Qed.

Lemma cons_neq_self {A} (x : A) l : x :: l ≠ l.
Proof. intros E. apply (f_equal length) in E. simpl in E. lia. Qed.

Lemma newest_first_NoDup (l : list frame) :
  StronglySorted (fun f g => seq g < seq f) l -> NoDup l.
Proof.
  induction 1 as [|f l _ IH Hf]; constructor; [|done].
  intros Hin. rewrite Forall_forall in Hf. apply Hf in Hin. lia.
Qed.

(** C2: on every connection, at every moment, at most one classification is
    in flight: [run_inference] is only called when the previous call for the
    connection has returned or raised.  [busy] is set from the call of
    [run_inference] until the reply has been sent. *)
Theorem one_classification_in_flight (evs : list event) :
  length (in_flight (history (run evs accept))) <= 1
  /\ starts_when_idle (history (run evs accept)) = true
  /\ (forall f, loop_task (run evs accept) = Inferring f ->
                in_flight (history (run evs accept)) = [f]
                /\ busy (run evs accept) = true)
  /\ (forall f, f ∈ in_flight (history (run evs accept)) ->
                loop_task (run evs accept) = Inferring f
                \/ loop_task (run evs accept) = Cancelled).
Proof.
  destruct (conn_inv_reachable evs) as [Hm Hl].
  split; [|split; [by destruct Hm|]]; unfold loop_inv in Hl;
    destruct (loop_task (run evs accept)) as [|f|msg handling| |].
  - destruct Hl as (-> & _). simpl. lia.
  - destruct Hl as (-> & _). simpl. lia.
  - destruct Hl as (-> & _). simpl. lia.
  - destruct Hl as (-> & _). simpl. lia.
  - by destruct Hl.
  - destruct Hl as (-> & _). split; [done|]. by intros f Hf%elem_of_nil.
  - destruct Hl as (-> & -> & _). split; [by intros ? [= <-]|].
    intros g Hg%list_elem_of_singleton. left. by subst.
  - destruct Hl as (-> & _). split; [done|]. by intros f Hf%elem_of_nil.
  - destruct Hl as (-> & _). split; [done|]. by intros f Hf%elem_of_nil.
  - split; [done|]. by right.
Qed.

(** A message that passes the checks is stored, whatever the mailbox holds
    and whatever the loop is doing. *)
Lemma step_Receive_decodes s raw frame_bytes :
  handler s = Receiving ->
  decodes_to json_loads b64decode raw frame_bytes ->
  step s (Receive raw) = put frame_bytes s.
Proof.
  intros Hh (Hsize & msg & Hj & Hf & Hb). simpl. rewrite Hh.
  unfold Main.on_text. by rewrite Hsize, Hj, Hf, Hb.
Qed.

(** An arrival is recorded only for a message that passes the checks. *)
Lemma step_arrivals s ev :
  arrivals (history (step s ev)) = arrivals (history s)
  \/ exists raw frame_bytes,
       ev = Receive raw
       /\ decodes_to json_loads b64decode raw frame_bytes
       /\ arrivals (history (step s ev))
          = {| seq := accepted s; data := frame_bytes |} :: arrivals (history s).
Proof.
  destruct ev as [raw|e|outcome| |latency|outcome]; simpl.
  - destruct (handler s); try by left. unfold Main.on_text.
    destruct (too_large raw) eqn:Hsize; [by left|].
    destruct (json_loads raw) as [msg|e] eqn:Hj.
    + destruct (has_frame msg) as [[|]|e] eqn:Hf.
      * destruct (frame_bytes_of b64decode msg) as [frame_bytes|] eqn:Hb;
          [|by left].
        right. exists raw, frame_bytes. split; [done|]. split; [|done].
        split; [done|]. by exists msg.
      * by left.
      * left. unfold leave, cancel_loop. by destruct (loop_task s).
    + left. destruct e; try done; unfold leave, cancel_loop;
        by destruct (loop_task s).
  - left. destruct (handler s); try done.
    unfold leave, cancel_loop. by destruct (loop_task s).
  - left. destruct (handler s); try done. unfold on_reply.
    destruct outcome; [done|]. unfold leave, cancel_loop. by destruct (loop_task s).
  - left. destruct (loop_task s); try done. unfold pick_up.
    by destruct (pending_frame s).
  - left. destruct (loop_task s); try done. unfold Main.on_done.
    by destruct (run_inference (data f)).
  - left. destruct (loop_task s); try done. unfold on_sent, pick_up.
    destruct outcome; simpl; [by destruct (pending_frame s)|by destruct handling].
Qed.

Lemma arrivals_received evs :
  Forall (fun f => sent_in json_loads b64decode (received evs) (data f))
    (arrivals (history (run evs accept))).
Proof.
  induction evs as [|ev evs IH] using rev_ind; [constructor|].
  unfold Main.run, received in *. rewrite fold_left_app, omap_app. simpl.
  assert (Hold : Forall (fun f => sent_in json_loads b64decode
                                    (omap (fun ev => match ev with
                                                     | Receive raw => Some raw
                                                     | _ => None
                                                     end) evs
                                     ++ received [ev]) (data f))
                   (arrivals (history (fold_left step evs accept)))).
  { eapply Forall_impl; [exact IH|]. intros f (raw & Hin & Hd).
    exists raw. split; [|done]. apply elem_of_app. by left. }
  destruct (step_arrivals (fold_left step evs accept) ev)
    as [->|(raw & frame_bytes & -> & Hd & ->)]; [done|].
  constructor; [|done]. exists raw. split; [|done].
  apply elem_of_app. right. left.
Qed.

(** An old pending frame that a stored message replaces is never taken. *)
Lemma overwritten_never_started s raw frame_bytes f later :
  conn_inv s ->
  handler s = Receiving ->
  pending_frame s = Some f ->
  decodes_to json_loads b64decode raw frame_bytes ->
  f ∉ starts (history (run later (step s (Receive raw)))).
Proof.
  intros Hinv Hh Ep Hd Hin. pose proof Hinv as [Hm _].
  destruct (mailbox_not_started s f Hm Ep) as (_ & Hns & Hlt).
  apply run_low_water in Hin; [|by apply conn_inv_step].
  rewrite (step_Receive_decodes s raw frame_bytes Hh Hd) in Hin.
  destruct Hin as [Hin|Hin].
  - simpl in Hin. autorewrite with hist in Hin. done.
  - unfold low_water in Hin. simpl in Hin. lia.
Qed.

(** The loop takes the pending frame when it looks at the mailbox. *)
Lemma pick_up_takes s f :
  pending_frame s = Some f ->
  pending_frame (pick_up s) = None
  /\ loop_task (pick_up s) = Inferring f
  /\ starts (history (pick_up s)) = f :: starts (history s).
Proof. intros E. unfold pick_up. rewrite E. simpl. by autorewrite with hist. Qed.

(** C3: the mailbox [pending_frame] is one cell (an [option]), so it holds
    at most one frame.  It holds [f] exactly when [f] is the most recent
    arrival and has not been taken for processing.  A frame that a newer
    arrival overwrites is never processed afterwards.  A call of
    [run_inference] takes the frame that was pending and leaves the mailbox
    empty.  On the messages themselves: a message that passes the checks of
    [ws_predict] is stored with the bytes it carries, whether the mailbox is
    empty or not and whatever the loop is doing; the frame it replaces is a
    different one and is never processed; and the loop, when it looks at
    the mailbox (on waking, or after sending a reply), takes the pending
    frame and leaves the mailbox empty. *)
Theorem mailbox_holds_latest_unprocessed (evs : list event) :
  (forall f, pending_frame (run evs accept) = Some f
             <-> latest (history (run evs accept)) = Some f
                 /\ (f ∉ starts (history (run evs accept))))
  /\ (forall raw f g later,
         pending_frame (run evs accept) = Some f ->
         pending_frame (step (run evs accept) (Receive raw)) = Some g ->
         g ≠ f ->
         f ∉ starts (history (run later (step (run evs accept) (Receive raw)))))
  /\ (forall ev f,
         starts (history (step (run evs accept) ev))
         = f :: starts (history (run evs accept)) ->
         pending_frame (run evs accept) = Some f
         /\ pending_frame (step (run evs accept) ev) = None)
  /\ (forall raw frame_bytes,
         handler (run evs accept) = Receiving ->
         decodes_to json_loads b64decode raw frame_bytes ->
         pending_frame (step (run evs accept) (Receive raw))
         = Some {| seq := accepted (run evs accept); data := frame_bytes |}
         /\ latest (history (step (run evs accept) (Receive raw)))
            = Some {| seq := accepted (run evs accept); data := frame_bytes |}
         /\ (forall f later,
                pending_frame (run evs accept) = Some f ->
                f ≠ {| seq := accepted (run evs accept); data := frame_bytes |}
                /\ (f ∉ starts (history (run later
                                          (step (run evs accept) (Receive raw)))))))
  /\ (forall f,
         pending_frame (run evs accept) = Some f ->
         (loop_task (run evs accept) = Sleeping ->
          pending_frame (step (run evs accept) Wake) = None
          /\ loop_task (step (run evs accept) Wake) = Inferring f)
         /\ (forall msg handling,
               loop_task (run evs accept) = Sending msg handling ->
               pending_frame (step (run evs accept) (SendReturns Sent)) = None
               /\ loop_task (step (run evs accept) (SendReturns Sent))
                  = Inferring f)).
Proof.
  pose proof (conn_inv_reachable evs) as Hinv.
  set (s := run evs accept) in *. pose proof Hinv as [Hm Hl].
  split; [|split; [|split; [|split]]].
  - intros f. split.
    + intros Ep. by destruct (mailbox_not_started s f Hm Ep) as (? & ? & _).
    + intros [Hlat Hns]. destruct (pending_frame s) as [g|] eqn:Ep.
      * destruct (mailbox_not_started s g Hm Ep) as (Hg & _). congruence.
      * destruct Hm as [_ _ H3 _ _]. rewrite Ep in H3. destruct H3 as [_ Hh].
        rewrite Hlat in Hh. exfalso. apply Hns.
        destruct (starts (history s)); simplify_eq/=. left.
  - intros raw f g later Ep Ep' Hne Hin.
    destruct (mailbox_not_started s f Hm Ep) as (_ & Hns & Hlt).
    destruct (step_move s (Receive raw))
      as [H1 H2 H3 H4|g' H1 H2 H3 H4 H5 H6|g' H1 H2 H3 H4 H5]; [congruence| |congruence].
    rewrite Ep' in H1. injection H1 as <-.
    apply run_low_water in Hin; [|by apply conn_inv_step].
    destruct Hin as [Hin|Hin].
    + rewrite H4 in Hin. done.
    + unfold low_water in Hin. rewrite Ep' in Hin. lia.
  - intros ev f Est.
    destruct (step_move s ev)
      as [H1 H2 H3 H4|g' H1 H2 H3 H4 H5 H6|g' H1 H2 H3 H4 H5].
    + rewrite H3 in Est. symmetry in Est. by apply cons_neq_self in Est.
    + rewrite H4 in Est. symmetry in Est. by apply cons_neq_self in Est.
    + rewrite H4 in Est. injection Est as ->. done.
  - intros raw frame_bytes Hh Hd.
    rewrite (step_Receive_decodes s raw frame_bytes Hh Hd).
    split; [done|]. split; [unfold latest; simpl; by autorewrite with hist|].
    intros f later Ep. split.
    + destruct (mailbox_not_started s f Hm Ep) as (_ & _ & Hlt).
      intros ->. simpl in Hlt. lia.
    + rewrite <-(step_Receive_decodes s raw frame_bytes Hh Hd).
      by apply (overwritten_never_started s raw frame_bytes).
  - intros f Ep. split.
    + intros El. simpl. rewrite El.
      by destruct (pick_up_takes s f Ep) as (? & ? & _).
    + intros msg handling El. simpl. rewrite El. simpl.
      by destruct (pick_up_takes (set_loop (loop_task s) false (add_sent msg s)) f Ep)
        as (? & ? & _).
Qed.

Lemma step_Wake s :
  step s Wake = match loop_task s with Sleeping => pick_up s | _ => s end.
Proof. done. Qed.

(** Completions that the loop is not waiting for. *)
Lemma step_ignored s ev :
  match ev, loop_task s with
  | Done _, Inferring _ | SendReturns _, Sending _ _ => False
  | Done _, _ | SendReturns _, _ => True
  | _, _ => False
  end ->
  step s ev = s.
Proof. destruct ev; simpl; destruct (loop_task s); done. Qed.

Lemma step_SendReturns_Sent s msg handling :
  loop_task s = Sending msg handling ->
  step s (SendReturns Sent)
  = pick_up (set_loop (loop_task s) false (add_sent msg s)).
Proof. intros E. simpl. by rewrite E. Qed.

Lemma step_Done s f latency :
  loop_task s = Inferring f ->
  exists msg handling,
    loop_task (step s (Done latency)) = Sending msg handling
    /\ pending_frame (step s (Done latency)) = pending_frame s
    /\ starts (history (step s (Done latency))) = starts (history s).
Proof.
  intros E. simpl. rewrite E. unfold Main.on_done.
  destruct (run_inference (data f)); by eexists _, _.
Qed.

(** While a classification is in flight, messages that pass the checks are
    stored one over the other; the loop and the handler stay as they are. *)
Lemma receive_burst s g earlier :
  loop_task s = Inferring g ->
  handler s = Receiving ->
  Forall (fun r => exists b, decodes_to json_loads b64decode r b) earlier ->
  loop_task (run (Receive <$> earlier) s) = Inferring g
  /\ handler (run (Receive <$> earlier) s) = Receiving
  /\ starts (history (run (Receive <$> earlier) s)) = starts (history s)
  /\ length (arrivals (history (run (Receive <$> earlier) s)))
     = length earlier + length (arrivals (history s)).
Proof.
  intros El Eh Hall. revert s El Eh.
  induction Hall as [|raw earlier [b Hd] _ IH]; intros s El Eh; [done|].
  rewrite fmap_cons.
  change (run (Receive raw :: (Receive <$> earlier)) s)
    with (run (Receive <$> earlier) (step s (Receive raw))).
  rewrite (step_Receive_decodes s raw b Eh Hd).
  destruct (IH (put b s)) as (H1 & H2 & H3 & H4); [done..|].
  rewrite H1, H2, H3, H4. simpl. autorewrite with hist. simpl.
  repeat split. lia.
Qed.

(** Of the messages of a burst, the last is the one classified next. *)
Lemma run_burst s g earlier raw frame_bytes latency :
  loop_task s = Inferring g ->
  handler s = Receiving ->
  Forall (fun r => exists b, decodes_to json_loads b64decode r b) earlier ->
  decodes_to json_loads b64decode raw frame_bytes ->
  exists f,
    data f = frame_bytes
    /\ loop_task (run (burst earlier raw latency) s) = Inferring f
    /\ starts (history (run (burst earlier raw latency) s))
       = f :: starts (history s)
    /\ latest (history (run (burst earlier raw latency) s)) = Some f
    /\ length (arrivals (history (run (burst earlier raw latency) s)))
       = S (length earlier) + length (arrivals (history s)).
Proof.
  intros El Eh Hall Hd.
  destruct (receive_burst s g earlier El Eh Hall) as (H1 & H2 & H3 & H4).
  unfold burst, Main.run. rewrite fold_left_app.
  fold (run (Receive <$> earlier) s).
  set (s1 := run (Receive <$> earlier) s) in *.
  cbn [fold_left]. rewrite (step_Receive_decodes s1 raw frame_bytes H2 Hd).
  exists {| seq := accepted s1; data := frame_bytes |}. split; [done|].
  assert (E : step (put frame_bytes s1) (Done latency)
              = on_done g latency (put frame_bytes s1))
    by (simpl; by rewrite H1).
  rewrite E. unfold Main.on_done.
  destruct (run_inference (data g)); simpl; unfold pick_up, latest; simpl;
    autorewrite with hist; simpl; by rewrite H3, H4.
Qed.

(** An arrival that was not processed is still pending, or a newer one
    took its place. *)
Lemma unprocessed_arrival s f :
  mailbox_inv s ->
  f ∈ arrivals (history s) -> f ∉ starts (history s) ->
  pending_frame s = Some f
  \/ exists g, g ∈ arrivals (history s) /\ seq f < seq g.
Proof.
  intros [_ H2 H3 _ _] Hin Hns. unfold latest in H3.
  destruct (arrivals (history s)) as [|h older] eqn:Ea;
    [by apply elem_of_nil in Hin|].
  apply elem_of_cons in Hin as [->|Hin].
  - left. destruct (pending_frame s) as [p|].
    + destruct H3 as (older' & [= -> ->] & _). done.
    + destruct H3 as [_ Hh]. simpl in Hh. exfalso. apply Hns.
      destruct (starts (history s)); simplify_eq/=. left.
  - right. exists h. split; [left|].
    apply StronglySorted_cons in H2 as [Hlt _].
    rewrite Forall_forall in Hlt. by apply Hlt.
Qed.

(** C1, as the code has it: the frames processed on a connection are a
    subsequence of the frames that arrived, in the order of arrival and none
    twice; every frame was, when it was taken, the most recent arrival, so
    no frame is processed after a newer one that arrived before it was
    taken; a frame that arrives while a classification is in flight becomes
    the pending frame and is the one processed once that classification has
    completed and its reply has been sent; and once the loop has run (the
    classification completed, its reply sent, the loop woken), the last frame
    processed is the last that arrived.  On the messages themselves: of a
    burst of messages that pass the checks of [ws_predict], received while a
    classification is in flight, every one is recorded as an arrival and
    exactly one frame is processed next, which carries the bytes of the last
    message.  The subsequence is strict only through overwriting: an arrival
    that was not processed is still pending, or a newer arrival took its
    place.  Every arrival carries the bytes of a received message that
    passes the checks. *)
Theorem scheduler_processes_latest (evs : list event) :
  starts (history (run evs accept)) `sublist_of` arrivals (history (run evs accept))
  /\ NoDup (starts (history (run evs accept)))
  /\ (forall later f earlier,
         history (run evs accept) = later ++ Started f :: earlier ->
         latest earlier = Some f)
  /\ (forall g raw f,
         loop_task (run evs accept) = Inferring g ->
         arrivals (history (step (run evs accept) (Receive raw)))
         = f :: arrivals (history (run evs accept)) ->
         pending_frame (step (run evs accept) (Receive raw)) = Some f
         /\ forall latency,
             loop_task (run [Done latency; SendReturns Sent]
                          (step (run evs accept) (Receive raw)))
             = Inferring f)
  /\ (forall latency,
         loop_task (run evs accept) ≠ Broken ->
         loop_task (run evs accept) ≠ Cancelled ->
         head (starts (history (run [Done latency; SendReturns Sent; Wake]
                                  (run evs accept))))
         = latest (history (run evs accept)))
  /\ (forall g earlier raw frame_bytes latency,
         loop_task (run evs accept) = Inferring g ->
         handler (run evs accept) = Receiving ->
         Forall (fun r => exists b, decodes_to json_loads b64decode r b) earlier ->
         decodes_to json_loads b64decode raw frame_bytes ->
         exists f,
           data f = frame_bytes
           /\ loop_task (run (burst earlier raw latency) (run evs accept))
              = Inferring f
           /\ starts (history (run (burst earlier raw latency) (run evs accept)))
              = f :: starts (history (run evs accept))
           /\ latest (history (run (burst earlier raw latency) (run evs accept)))
              = Some f
           /\ length (arrivals (history (run (burst earlier raw latency)
                                           (run evs accept))))
              = S (length earlier) + length (arrivals (history (run evs accept))))
  /\ (forall f,
         f ∈ arrivals (history (run evs accept)) ->
         f ∉ starts (history (run evs accept)) ->
         pending_frame (run evs accept) = Some f
         \/ exists g, g ∈ arrivals (history (run evs accept)) /\ seq f < seq g)
  /\ (forall f,
         f ∈ arrivals (history (run evs accept)) ->
         exists raw, raw ∈ received evs
                     /\ decodes_to json_loads b64decode raw (data f)).
Proof.
  pose proof (conn_inv_reachable evs) as Hinv.
  pose proof (arrivals_received evs) as Harr.
  set (s := run evs accept) in *. pose proof Hinv as [Hm Hl].
  assert (Hsub : starts (history s) `sublist_of` arrivals (history s)).
  { destruct Hm as [_ _ H3 _ _]. destruct (pending_frame s).
    - destruct H3 as (older & -> & Hsub). by constructor.
    - by destruct H3. }
  split; [done|]. split; [|split; [|split; [|split; [|split; [|split]]]]].
  - eapply sublist_NoDup; [|done]. apply newest_first_NoDup. by destruct Hm.
  - intros later f earlier E.
    by destruct (picks_latest_split _ _ _ _ (inv_picks _ Hm) E).
  - intros g raw f Eg Ea.
    destruct (step_move s (Receive raw))
      as [H1 H2 H3 H4|f' H1 H2 H3 H4 H5 H6|f' H1 H2 H3 H4 H5].
    + rewrite H4 in Ea. symmetry in Ea. by apply cons_neq_self in Ea.
    + rewrite H5 in Ea. injection Ea as ->. split; [done|].
      intros latency.
      remember (step s (Receive raw)) as s1 eqn:Es1.
      unfold Main.run. simpl. rewrite H6, Eg.
      unfold Main.on_done.
      destruct (run_inference (data g)); simpl; unfold pick_up; simpl;
        by rewrite H1.
    + rewrite H5 in Ea. symmetry in Ea. by apply cons_neq_self in Ea.
  - intros latency Hnb Hnc.
    assert (Hpick : forall s1,
               pending_frame s1 = pending_frame s ->
               starts (history s1) = starts (history s) ->
               head (starts (history (pick_up s1))) = latest (history s)
               /\ (loop_task (pick_up s1) = Sleeping ->
                   pick_up (pick_up s1) = pick_up s1)).
    { intros s1 Ep Es. unfold pick_up. rewrite Ep.
      destruct (pending_frame s) as [f|] eqn:E; simpl.
      - autorewrite with hist. split; [|done].
        by destruct (mailbox_not_started s f Hm E) as (-> & _).
      - split; [|by rewrite Ep]. rewrite Es.
        destruct Hm as [_ _ H3 _ _]. rewrite E in H3. by destruct H3. }
    assert (Hwake : forall s1,
               pending_frame s1 = pending_frame s ->
               starts (history s1) = starts (history s) ->
               head (starts (history (step (pick_up s1) Wake)))
               = latest (history s)).
    { intros s1 Ep Es. destruct (Hpick s1 Ep Es) as [Hh Hs].
      rewrite step_Wake. destruct (loop_task (pick_up s1)); rewrite ?Hs; done. }
    unfold Main.run. cbn [fold_left].
    destruct (loop_task s) as [|g|msg handling| |] eqn:E; [| | |done..].
    + rewrite (step_ignored s (Done latency)), (step_ignored s (SendReturns Sent))
        by (by rewrite E).
      rewrite step_Wake, E. by apply Hpick.
    + destruct (step_Done s g latency E) as (msg & handling & E1 & E2 & E3).
      rewrite (step_SendReturns_Sent _ msg handling E1).
      apply Hwake; simpl; by rewrite ?E2, ?E3.
    + rewrite (step_ignored s (Done latency)) by (by rewrite E).
      rewrite (step_SendReturns_Sent _ msg handling E).
      by apply Hwake.
  - intros g earlier raw frame_bytes latency El Eh Hall Hd.
    by apply (run_burst s g).
  - intros f. by apply unprocessed_arrival.
  - intros f Hin. rewrite Forall_forall in Harr. by apply Harr.
Qed.

(** **** Messages the handler cannot read *)

Lemma step_closed s ev :
  ~ handler_open s ->
  loop_task s = Cancelled \/ loop_task s = Broken ->
  step s ev = s.
Proof.
  intros Hh Hl. unfold handler_open in Hh. destruct ev; simpl.
  - by destruct (handler s).
  - by destruct (handler s).
  - by destruct (handler s).
  - by destruct Hl as [-> | ->].
  - by destruct Hl as [-> | ->].
  - by destruct Hl as [-> | ->].
Qed.

Lemma run_closed evs s :
  ~ handler_open s ->
  loop_task s = Cancelled \/ loop_task s = Broken ->
  run evs s = s.
Proof.
  intros Hh Hl. induction evs as [|ev evs IH]; simpl; [done|].
  by rewrite step_closed.
Qed.

Lemma leave_closed st s :
  handler (leave st s) = st
  /\ sent (leave st s) = sent s
  /\ (loop_task (leave st s) = Cancelled \/ loop_task (leave st s) = Broken).
Proof.
  unfold leave, cancel_loop. destruct (loop_task s) eqn:E; simpl; rewrite ?E; auto.
Qed.

(** C7 fails on a message that is JSON but no object, array or string:
    on [null], [true] or a number, ["frame" not in msg] raises [TypeError],
    which [ws_predict] does not catch.  The handler is left, the loop is
    cancelled, no error message is sent, and nothing is sent or processed on
    the connection afterwards. *)
Theorem scalar_json_ends_connection (s : conn) (raw : string)
    (msg : json) (later : list event) :
  handler s = Receiving ->
  too_large raw = false ->
  json_loads raw = Ok msg ->
  msg = JNull \/ (exists b, msg = JBool b) \/ (exists n, msg = JNumber n) ->
  handler (step s (Receive raw)) = Crashed TypeError
  /\ sent (step s (Receive raw)) = sent s
  /\ (loop_task (step s (Receive raw)) = Cancelled
      \/ loop_task (step s (Receive raw)) = Broken)
  /\ run later (step s (Receive raw)) = step s (Receive raw).
Proof.
  intros Hh Hsize Hj Hmsg.
  assert (E : step s (Receive raw) = leave (Crashed TypeError) s).
  { simpl. rewrite Hh. unfold Main.on_text. rewrite Hsize, Hj.
    by destruct Hmsg as [->|[[b ->]|[n ->]]]. }
  rewrite E. destruct (leave_closed (Crashed TypeError) s) as (H1 & H2 & H3).
  repeat split; [done..|].
  apply run_closed; [|done]. unfold handler_open. rewrite H1. tauto.
Qed.

(** X1: a message that is too large, on which [json.loads] raises
    [JSONDecodeError], that has no "frame" in it, or whose frame does not
    decode, is answered with one error message and changes nothing else: the
    handler goes back to receiving and the loop is untouched.  A message on
    which [json.loads] raises anything else ([RecursionError] on a text
    nested too deep, [ValueError] on an integer of more than 4300 digits) is
    not answered: the exception leaves [ws_predict], the loop is cancelled
    and nothing is sent or processed afterwards. *)
Theorem unreadable_message_gets_error_reply (s : conn) (raw : string) :
  handler s = Receiving ->
  (too_large raw = true
   \/ (exists m, json_loads raw = Raise (JSONDecodeError m))
   \/ (exists msg, json_loads raw = Ok msg /\ has_frame msg = Ok false)
   \/ (exists msg, json_loads raw = Ok msg /\ has_frame msg = Ok true
                   /\ frame_bytes_of b64decode msg = None) ->
   exists text,
     handler (step s (Receive raw)) = Replying text
     /\ run [Receive raw; ReplyReturns Sent] s = add_sent (Error text) s)
  /\ (forall e later,
        too_large raw = false ->
        json_loads raw = Raise e ->
        (forall m, e ≠ JSONDecodeError m) ->
        handler (step s (Receive raw)) = ending e
        /\ sent (step s (Receive raw)) = sent s
        /\ (loop_task (step s (Receive raw)) = Cancelled
            \/ loop_task (step s (Receive raw)) = Broken)
        /\ run later (step s (Receive raw)) = step s (Receive raw)).
Proof.
  intros Hh. split.
  - intros Hbad.
    assert (E : exists text, step s (Receive raw) = reply_error text s).
    { simpl. rewrite Hh. unfold Main.on_text.
      destruct (too_large raw); [by eexists|].
      destruct Hbad as [?|[(m & ->)|[(msg & -> & ->)|(msg & -> & -> & ->)]]];
        [done|by eexists..]. }
    destruct E as [text E]. exists text. unfold Main.run. cbn [fold_left].
    rewrite E. split; [done|]. simpl. unfold add_sent, set_handler. simpl.
    by rewrite Hh.
  - intros e later Hsize Hj He.
    assert (E : step s (Receive raw) = leave (ending e) s).
    { simpl. rewrite Hh. unfold Main.on_text. rewrite Hsize, Hj.
      destruct e; try done. by destruct (He msg). }
    rewrite E. destruct (leave_closed (ending e) s) as (H1 & H2 & H3).
    repeat split; [done..|].
    apply run_closed; [|done]. unfold handler_open. rewrite H1.
    destruct e; simpl; tauto.
Qed.

(** X2: a classification that fails, the reply going out, is answered with
    one error message, and the loop goes on: it clears [busy] and takes the
    pending frame, or sleeps until one arrives. *)
Theorem failed_classification_gets_error_reply
    (s : conn) (f : frame) (e : exn) (latency : Q) :
  loop_task s = Inferring f ->
  run_inference (data f) = Raise e ->
  run [Done latency; SendReturns Sent] s
  = pick_up {| pending_frame := pending_frame s; busy := false;
               loop_task := Sending (Error (exn_str e)) true;
               handler := handler s;
               sent := Error (exn_str e) :: sent s; accepted := accepted s;
               history := Finished f :: history s |}.
Proof.
  intros El Er. unfold Main.run. cbn [fold_left].
  assert (E : step s (Done latency)
              = set_loop (Sending (Error (exn_str e)) true) (busy s)
                  (record (Finished f) s)).
  { simpl. rewrite El. unfold Main.on_done. by rewrite Er. }
  by rewrite E.
Qed.

End Connection.

(** C1 as the claim states it fails: of two frames, the second arriving
    while the first is in flight, both are processed; the frames processed
    are all the frames sent, no strict subset of them. *)
Lemma two_rapid_frames_both_processed :
  loop_task (demo_run [Receive (frame_message "QQ=="); Wake] accept)
  = Inferring frame_A
  /\ arrivals (history (demo_run two_frames accept)) = [frame_B; frame_A]
  /\ starts (history (demo_run two_frames accept)) = [frame_B; frame_A]
  /\ sent (demo_run two_frames accept) = [Predictions [] 12; Predictions [] 12].
Proof. repeat split; vm_compute; reflexivity. Qed.

Lemma scheduler_processes_latest_witness :
  exists f,
    data f = []
    /\ loop_task
         (demo_run (burst [frame_message "Qg=="] (frame_message "") 12)
            (demo_run [Receive (frame_message "QQ=="); Wake] accept))
       = Inferring f
    /\ starts (history
         (demo_run (burst [frame_message "Qg=="] (frame_message "") 12)
            (demo_run [Receive (frame_message "QQ=="); Wake] accept)))
       = f :: starts (history
                      (demo_run [Receive (frame_message "QQ=="); Wake] accept))
    /\ latest (history
         (demo_run (burst [frame_message "Qg=="] (frame_message "") 12)
            (demo_run [Receive (frame_message "QQ=="); Wake] accept)))
       = Some f
    /\ length (arrivals (history
         (demo_run (burst [frame_message "Qg=="] (frame_message "") 12)
            (demo_run [Receive (frame_message "QQ=="); Wake] accept))))
       = 2 + length (arrivals (history
                       (demo_run [Receive (frame_message "QQ=="); Wake] accept))).
Proof.
  unfold demo_run.
  destruct (scheduler_processes_latest demo_json_loads demo_b64decode
              demo_run_inference [Receive (frame_message "QQ=="); Wake])
    as (_ & _ & _ & _ & _ & H & _).
  apply (H frame_A [frame_message "Qg=="] (frame_message "") [] 12%Q).
  - vm_compute. reflexivity.
  - vm_compute. reflexivity.
  - constructor; [|constructor]. exists [Byte.x42].
    split; [vm_compute; reflexivity|].
    exists (JObject {[ "frame" := JString "Qg==" ]}).
    split; [vm_compute; reflexivity|]. split; vm_compute; reflexivity.
  - split; [vm_compute; reflexivity|].
    exists (JObject {[ "frame" := JString "" ]}).
    split; [vm_compute; reflexivity|]. split; vm_compute; reflexivity.
Defined.

Lemma one_classification_in_flight_witness :
  in_flight
    (history (demo_run [Receive (frame_message "QQ=="); Wake] accept))
  = [frame_A]
  /\ busy (demo_run [Receive (frame_message "QQ=="); Wake] accept) = true.
Proof.
  unfold demo_run.
  destruct (one_classification_in_flight demo_json_loads demo_b64decode
              demo_run_inference [Receive (frame_message "QQ=="); Wake])
    as (_ & _ & H & _).
  apply (H frame_A). vm_compute. reflexivity.
Defined.

Lemma mailbox_holds_latest_unprocessed_witness :
  pending_frame
    (demo_step (demo_run [Receive (frame_message "QQ==")] accept)
       (Receive (frame_message "Qg==")))
  = Some frame_B
  /\ (frame_A ∉
      starts (history
                (demo_run [Wake; Done 12; SendReturns Sent; Wake]
                   (demo_step (demo_run [Receive (frame_message "QQ==")] accept)
                      (Receive (frame_message "Qg==")))))).
Proof.
  unfold demo_step, demo_run.
  destruct (mailbox_holds_latest_unprocessed demo_json_loads demo_b64decode
              demo_run_inference [Receive (frame_message "QQ==")])
    as (_ & _ & _ & H & _).
  destruct (H (frame_message "Qg==") [Byte.x42]) as (H1 & _ & H3).
  - vm_compute. reflexivity.
  - split; [vm_compute; reflexivity|].
    exists (JObject {[ "frame" := JString "Qg==" ]}).
    split; [vm_compute; reflexivity|]. split; vm_compute; reflexivity.
  - split; [exact H1|].
    apply (H3 frame_A [Wake; Done 12; SendReturns Sent; Wake]).
    vm_compute. reflexivity.
Defined.

Lemma scalar_json_ends_connection_witness :
  handler (demo_step accept (Receive "null")) = Crashed TypeError
  /\ sent (demo_step accept (Receive "null")) = sent accept
  /\ (loop_task (demo_step accept (Receive "null")) = Cancelled
      \/ loop_task (demo_step accept (Receive "null")) = Broken)
  /\ demo_run [Receive (frame_message "QQ=="); Wake; Done 12; SendReturns Sent]
       (demo_step accept (Receive "null"))
     = demo_step accept (Receive "null").
Proof.
  unfold demo_step, demo_run.
  apply (scalar_json_ends_connection demo_json_loads demo_b64decode
           demo_run_inference accept "null" JNull).
  - reflexivity.
  - vm_compute. reflexivity.
  - vm_compute. reflexivity.
  - left. reflexivity.
Defined.

Example null_message_trace :
  demo_run [Receive "null"; Receive (frame_message "QQ=="); Wake] accept
  = {| pending_frame := None; busy := false; loop_task := Cancelled;
       handler := Crashed TypeError; sent := []; accepted := 0; history := [] |}.
Proof. vm_compute. reflexivity. Qed.

Lemma unreadable_message_gets_error_reply_witness :
  (exists text,
      handler (demo_step accept (Receive "{}")) = Replying text
      /\ demo_run [Receive "{}"; ReplyReturns Sent] accept
         = add_sent (Error text) accept)
  /\ handler (demo_step accept (Receive (integer_message 4301)))
     = Crashed (ValueError "Exceeds the limit (4300 digits) for integer string conversion")
  /\ sent (demo_step accept (Receive (integer_message 4301))) = [].
Proof.
  unfold demo_step, demo_run.
  destruct (unreadable_message_gets_error_reply demo_json_loads demo_b64decode
              demo_run_inference accept "{}") as [H _]; [reflexivity|].
  destruct (unreadable_message_gets_error_reply demo_json_loads demo_b64decode
              demo_run_inference accept (integer_message 4301)) as [_ H'];
    [reflexivity|].
  split.
  - apply H. right. right. left. exists (JObject ∅).
    split; vm_compute; reflexivity.
  - destruct (H' (ValueError "Exceeds the limit (4300 digits) for integer string conversion")
                [])
      as (H1 & H2 & _).
    + vm_compute. reflexivity.
    + vm_compute. reflexivity.
    + intros m. discriminate.
    + split; [exact H1|exact H2].
Defined.

Example usable_after_error :
  sent (demo_run [Receive "{}"; ReplyReturns Sent;
                  Receive "not json"; ReplyReturns Sent;
                  Receive (frame_message "QQ=="); Wake; Done 12; SendReturns Sent]
          accept)
  = [Predictions [] 12; Error "Invalid JSON."; Error "Missing 'frame' key."].
Proof. vm_compute. reflexivity. Qed.

Lemma failed_classification_gets_error_reply_witness :
  demo_run [Done 3; SendReturns Sent]
    (demo_run [Receive (frame_message ""); Wake] accept)
  = pick_up
      {| pending_frame := None; busy := false;
         loop_task := Sending (Error "cannot identify image file") true;
         handler := Receiving;
         sent := [Error "cannot identify image file"]; accepted := 1;
         history := [Finished {| seq := 0; data := [] |};
                     Started {| seq := 0; data := [] |};
                     Arrived {| seq := 0; data := [] |}] |}.
Proof.
  unfold demo_run.
  apply (failed_classification_gets_error_reply demo_json_loads demo_b64decode
           demo_run_inference
           (run demo_json_loads demo_b64decode demo_run_inference
              [Receive (frame_message ""); Wake] accept)
           {| seq := 0; data := [] |}
           (ValueError "cannot identify image file") 3).
  - vm_compute. reflexivity.
  - reflexivity.
Defined.

(** ** The HTTP endpoint and the start of the process, end to end *)

(** X8: POST /predict-image with the classifier of [model_worker].  An
    upload of an allowed type and size is handed to the classifier once, as
    it is.  When the image does not decode, the answer is status 400 with
    the exception's message.  When the model returns one value per class
    name, the answer is status 200 with the upload's filename and at most
    [TOP_K] predictions, in descending order of confidence, each with a
    label of [CLASS_NAMES] and a confidence at or above the floor. *)
Theorem predict_image_end_to_end
    (argsort : list Q -> list nat) (model_predict : bytes -> result (list Q))
    (file : UploadFile) (calls : list bytes) :
  allowed_type (content_type file) = true ->
  (Z.of_nat (length (contents file)) <= Config.MAX_UPLOAD_BYTES)%Z ->
  (forall e,
      model_predict (contents file) = Raise e ->
      predict_image (ModelWorker.run_inference argsort model_predict) file calls
      = ({| status_code := 400; content := ErrorBody (exn_str e) |},
         calls ++ [contents file]))
  /\ (forall raw,
        model_predict (contents file) = Ok raw ->
        length raw = length Config.CLASS_NAMES ->
        ascending_argsort raw (argsort raw) ->
        exists preds,
          predict_image (ModelWorker.run_inference argsort model_predict) file calls
          = ({| status_code := 200;
                content := PredictionBody (filename file) preds |},
             calls ++ [contents file])
          /\ length preds <= Config.TOP_K
          /\ StronglySorted (fun p q => (confidence q <= confidence p)%Q) preds
          /\ Forall (fun p => label p ∈ Config.CLASS_NAMES
                              /\ (Config.CONFIDENCE_THRESHOLD <= confidence p)%Q)
               preds).
Proof.
  intros Ht Hsize. unfold predict_image. rewrite Ht.
  rewrite decide_False by lia.
  unfold ModelWorker.run_inference, _predict_sync. split.
  - by intros e ->.
  - intros raw -> Hlen [Hp Hs]. cbn [mbind result_bind].
    rewrite (ModelWorkerFacts.postprocess_Ok _ _ _ _ _ Hlen Hp).
    eexists. split; [done|]. split; [|split].
    + rewrite length_fmap. apply ModelWorkerFacts.length_predicted_indices.
      unfold Config.TOP_K. lia.
    + eapply StronglySorted_fmap;
        [|by apply ModelWorkerFacts.predicted_indices_descending].
      intros i j Hij. by apply ModelWorkerFacts.confidence_of_mono.
    + apply Forall_fmap, Forall_forall. intros idx Hidx.
      apply ModelWorkerFacts.predicted_indices_kept in Hidx as [Hlt Hge].
      split; [|done].
      apply ModelWorkerFacts.entry_label_elem_of. by rewrite <-Hlen.
Qed.

Lemma predict_image_end_to_end_witness :
  exists preds,
    predict_image
      (ModelWorker.run_inference insertion_argsort (fun _ => Ok sample_raw))
      {| content_type := Some "image/png"; filename := Some "street.png";
         contents := [Byte.x41] |} []
    = ({| status_code := 200;
          content := PredictionBody (Some "street.png") preds |}, [[Byte.x41]])
    /\ length preds <= Config.TOP_K
    /\ StronglySorted (fun p q => (confidence q <= confidence p)%Q) preds
    /\ Forall (fun p => label p ∈ Config.CLASS_NAMES
                        /\ (Config.CONFIDENCE_THRESHOLD <= confidence p)%Q) preds.
Proof.
  destruct (predict_image_end_to_end insertion_argsort (fun _ => Ok sample_raw)
              {| content_type := Some "image/png"; filename := Some "street.png";
                 contents := [Byte.x41] |} []) as [_ H].
  - vm_compute. reflexivity.
  - vm_compute. discriminate.
  - apply (H sample_raw).
    + reflexivity.
    + reflexivity.
    + apply ModelWorkerFacts.stable_argsort_ascending,
        ModelWorkerFacts.insertion_argsort_stable.
Defined.

(** X9: what the check at start-up buys.  In a process that serves, the
    pool has the configured number of workers, at least one; and on every
    vector of the width the model declares, which is the [num_classes] that
    /health reports, [run_inference] returns: no index lacks a class name. *)
Theorem serving_classifier_returns
    (output_dim env : option Z) (pool : ModelWorker.executor)
    (argsort : list Q -> list nat) (model_predict : bytes -> result (list Q))
    (image_bytes : bytes) (raw : list Q) :
  start output_dim env = Serving pool ->
  output_dim = Some (Z.of_nat (length raw)) ->
  model_predict image_bytes = Ok raw ->
  argsort raw ≡ₚ List.seq 0 (length raw) ->
  pool = ModelWorker.ThreadPoolExecutor (Config.MAX_INFERENCE_WORKERS env)
  /\ (1 <= Config.MAX_INFERENCE_WORKERS env)%Z
  /\ length raw = num_classes health
  /\ exists preds,
       ModelWorker.run_inference argsort model_predict image_bytes = Ok preds.
Proof.
  unfold start, ModelWorker.module_init. intros Hs -> Hm Hp.
  destruct (decide (Some (Z.of_nat (length raw))
                    ≠ Some (Z.of_nat (length Config.CLASS_NAMES)))) as [|He];
    [done|].
  destruct (decide (Config.MAX_INFERENCE_WORKERS env <= 0)%Z); [done|].
  injection Hs as <-.
  assert (Hlen : length raw = length Config.CLASS_NAMES).
  { destruct (decide (length raw = length Config.CLASS_NAMES)) as [|Hne]; [done|].
    destruct He. intros E. apply Hne, Nat2Z.inj. congruence. }
  split; [done|]. split; [lia|]. split; [done|].
  unfold ModelWorker.run_inference, _predict_sync. rewrite Hm.
  cbn [mbind result_bind].
  rewrite (ModelWorkerFacts.postprocess_Ok _ _ _ _ _ Hlen Hp). by eexists.
Qed.

Lemma serving_classifier_returns_witness :
  ModelWorker.ThreadPoolExecutor 2
  = ModelWorker.ThreadPoolExecutor (Config.MAX_INFERENCE_WORKERS None)
  /\ (1 <= Config.MAX_INFERENCE_WORKERS None)%Z
  /\ length sample_raw = num_classes health
  /\ exists preds,
       ModelWorker.run_inference insertion_argsort (fun _ => Ok sample_raw) []
       = Ok preds.
Proof.
  apply (serving_classifier_returns (Some 20%Z) None (ModelWorker.ThreadPoolExecutor 2)
           insertion_argsort (fun _ => Ok sample_raw) [] sample_raw).
  - reflexivity.
  - reflexivity.
  - reflexivity.
  - apply ModelWorkerFacts.insertion_argsort_stable.
Defined.

(** ** More on the WebSocket handler *)

Lemma string_length_app (a b : string) :
  String.length (a +:+ b) = String.length a + String.length b.
Proof. induction a as [|c a IH]; simpl; [done|]. by rewrite IH. Qed.

Lemma prefix_app (a b : string) : String.prefix a (a +:+ b) = true.
Proof.
  induction a as [|c a IH]; simpl; [by destruct b|].
  destruct (Ascii.ascii_dec c c); [done|congruence].
Qed.

Lemma str_contains_app (needle pre post : string) :
  str_contains needle (pre +:+ needle +:+ post) = true.
Proof.
  induction pre as [|c pre IH].
  - change (EmptyString +:+ needle +:+ post) with (needle +:+ post).
    assert (E : forall s, String.prefix needle s = true ->
                          str_contains needle s = true)
      by (by intros [|a s]; simpl; intros ->).
    apply E, prefix_app.
  - change (String c pre +:+ needle +:+ post)
      with (String c (pre +:+ needle +:+ post)).
    cbn [str_contains]. rewrite IH. apply orb_true_r.
Qed.

Lemma too_large_iff (raw : string) :
  too_large raw = true <-> (2936012 < Z.of_nat (String.length raw))%Z.
Proof.
  unfold too_large. rewrite negb_true_iff, <-not_true_iff_false, Qle_bool_iff.
  unfold Qle, Config.WS_MAX_MESSAGE_BYTES. simpl. lia.
Qed.

(** X10: the size guard of [ws_predict] counts the characters of the
    message: it rejects a message exactly when it has more than 2936012 of
    them.  A frame of at most [WS_MAX_MESSAGE_BYTES] bytes passes it, once
    encoded in base64 (four characters for every three bytes started) and
    wrapped as the value of "frame". *)
Theorem size_guard_admits_full_frames :
  (forall raw,
      too_large raw = true <-> (2936012 < Z.of_nat (String.length raw))%Z)
  /\ (forall (n : nat) (b64 : string),
        (Z.of_nat n <= Config.WS_MAX_MESSAGE_BYTES)%Z ->
        String.length b64 = 4 * ((n + 2) / 3) ->
        too_large (frame_message b64) = false).
Proof.
  split; [apply too_large_iff|].
  intros n b64 Hn Hlen. apply not_true_iff_false. rewrite too_large_iff.
  unfold frame_message. rewrite !string_length_app, Hlen.
  unfold Config.WS_MAX_MESSAGE_BYTES in Hn. cbn [String.length dq].
  rewrite !Nat2Z.inj_add, Nat2Z.inj_mul, Nat2Z.inj_div, Nat2Z.inj_add.
  assert (((Z.of_nat n + Z.of_nat 2) `div` Z.of_nat 3 < 699052)%Z).
  { apply Z.div_lt_upper_bound; lia. }
  lia.
Qed.

Lemma size_guard_admits_full_frames_witness :
  too_large (frame_message "QQ==") = false.
Proof.
  apply (proj2 size_guard_admits_full_frames 1 "QQ==").
  - vm_compute. discriminate.
  - reflexivity.
Defined.

Section Streaming.
Variable json_loads : string -> result json.
Variable b64decode : string -> option bytes.
Variable run_inference : bytes -> result (list prediction).

#[local] Abbreviation step := (Main.step json_loads b64decode run_inference).
#[local] Abbreviation run := (Main.run json_loads b64decode run_inference).

(** X11: a message that [json.loads] parses to a value that mentions
    "frame" but carries no base64 string under that key (an array with the
    element "frame", a string with "frame" inside it, an object whose
    "frame" is no string) passes the key check and is answered as a frame
    that does not decode.  (A message on which [json.loads] raises is the
    matter of X1.) *)
Theorem misplaced_frame_gets_base64_error (s : conn) (raw : string) (msg : json) :
  handler s = Receiving ->
  too_large raw = false ->
  json_loads raw = Ok msg ->
  (exists items, msg = JArray items /\ JString "frame" ∈ items)
  \/ (exists pre post, msg = JString (pre +:+ "frame" +:+ post))
  \/ (exists members v, msg = JObject members /\ members !! "frame" = Some v
                        /\ forall t, v ≠ JString t) ->
  step s (Receive raw) = reply_error "Invalid base64 in 'frame'." s
  /\ run [Receive raw; ReplyReturns Sent] s
     = add_sent (Error "Invalid base64 in 'frame'.") s.
Proof.
  intros Hh Hsize Hj Hmsg.
  assert (E : step s (Receive raw) = reply_error "Invalid base64 in 'frame'." s).
  { simpl. rewrite Hh. unfold Main.on_text. rewrite Hsize, Hj.
    destruct Hmsg as [(items & -> & Hin)|[(pre & post & ->)|(members & v & -> & Ev & Hv)]].
    - assert (Hex : has_frame (JArray items) = Ok true); [|by rewrite Hex].
      simpl. f_equal. clear Hj.
      induction items as [|v items IH]; [by apply elem_of_nil in Hin|].
      apply elem_of_cons in Hin as [<-|Hin]; simpl; [done|].
      rewrite IH by done. apply orb_true_r.
    - assert (Hex : has_frame (JString (pre +:+ "frame" +:+ post)) = Ok true);
        [|by rewrite Hex].
      simpl has_frame. by rewrite str_contains_app.
    - assert (Hex : has_frame (JObject members) = Ok true).
      { simpl. f_equal. apply bool_decide_eq_true. by eexists. }
      rewrite Hex. simpl. rewrite Ev. destruct v; try done. by destruct (Hv s0). }
  split; [done|]. unfold Main.run. cbn [fold_left]. rewrite E.
  simpl. unfold add_sent, set_handler. simpl. by rewrite Hh.
Qed.

(** X12: when [ws_predict] is left by an exception of [receive_text] (the
    client disconnecting, or any other) or of its own [send_json], the loop
    task is cancelled and [busy] is clear; a classification in flight is
    abandoned: nothing more is sent, taken for processing or accepted
    on the connection. *)
Theorem handler_exit_ends_connection
    (evs later : list event) (e : exn) (ev : event) :
  (handler (run evs accept) = Receiving /\ ev = ReceiveRaises e)
  \/ (exists msg, handler (run evs accept) = Replying msg
                  /\ ev = ReplyReturns (SendRaises e)) ->
  handler (step (run evs accept) ev) = ending e
  /\ busy (step (run evs accept) ev) = false
  /\ (loop_task (step (run evs accept) ev) = Cancelled
      \/ loop_task (step (run evs accept) ev) = Broken)
  /\ sent (step (run evs accept) ev) = sent (run evs accept)
  /\ history (step (run evs accept) ev) = history (run evs accept)
  /\ run later (step (run evs accept) ev) = step (run evs accept) ev.
Proof.
  intros Hev.
  pose proof (conn_inv_step json_loads b64decode run_inference _ ev
                (conn_inv_reachable json_loads b64decode run_inference evs))
    as [_ Hl].
  set (s := run evs accept) in *.
  assert (E : step s ev = leave (ending e) s).
  { destruct Hev as [[Hh ->]|(msg & Hh & ->)]; simpl; by rewrite Hh. }
  rewrite E in *. destruct (leave_closed (ending e) s) as (H1 & H2 & H3).
  split; [done|]. split.
  { unfold loop_inv in Hl. destruct H3 as [H3|H3]; rewrite H3 in Hl; tauto. }
  split; [done|]. split; [done|]. split.
  { unfold leave, cancel_loop. by destruct (loop_task s). }
  apply run_closed; [|done]. unfold handler_open. rewrite H1.
  destruct e; simpl; tauto.
Qed.

Lemma step_Broken s ev :
  loop_task s = Broken ->
  loop_task (step s ev) = Broken
  /\ starts (history (step s ev)) = starts (history s)
  /\ results (sent (step s ev)) = results (sent s).
Proof.
  intros E. destruct ev; simpl; rewrite ?E; try done.
  - destruct (handler s); try done. unfold Main.on_text.
    repeat case_match; try done; unfold leave, cancel_loop; by rewrite E.
  - destruct (handler s); try done. unfold leave, cancel_loop. by rewrite E.
  - destruct (handler s); try done. unfold on_reply.
    destruct outcome; [done|]. unfold leave, cancel_loop. by rewrite E.
Qed.

Lemma run_Broken evs s :
  loop_task s = Broken ->
  loop_task (run evs s) = Broken
  /\ starts (history (run evs s)) = starts (history s)
  /\ results (sent (run evs s)) = results (sent s).
Proof.
  revert s. induction evs as [|ev evs IH]; intros s E; [done|].
  destruct (step_Broken s ev E) as (H1 & H2 & H3).
  change (run (ev :: evs) s) with (run evs (step s ev)).
  destruct (IH _ H1) as (H4 & H5 & H6). by rewrite H4, H5, H6, H2, H3.
Qed.

(** X13: when the [send_json] of a result fails and the [send_json] of the
    error message fails too, the loop ends ([break]) while [ws_predict] goes
    on: from then on the connection sends no result and takes no frame for
    processing, whatever arrives. *)
Theorem broken_loop_never_answers
    (s : conn) (msg : server_msg) (e1 e2 : exn) (later : list event) :
  loop_task s = Sending msg false ->
  loop_task (run [SendReturns (SendRaises e1); SendReturns (SendRaises e2)] s)
  = Broken
  /\ handler (run [SendReturns (SendRaises e1); SendReturns (SendRaises e2)] s)
     = handler s
  /\ sent (run [SendReturns (SendRaises e1); SendReturns (SendRaises e2)] s)
     = sent s
  /\ loop_task
       (run later (run [SendReturns (SendRaises e1); SendReturns (SendRaises e2)] s))
     = Broken
  /\ starts (history
       (run later (run [SendReturns (SendRaises e1); SendReturns (SendRaises e2)] s)))
     = starts (history s)
  /\ results (sent
       (run later (run [SendReturns (SendRaises e1); SendReturns (SendRaises e2)] s)))
     = results (sent s).
Proof.
  intros E.
  assert (E' : run [SendReturns (SendRaises e1); SendReturns (SendRaises e2)] s
               = set_loop Broken false s).
  { unfold Main.run. cbn [fold_left]. simpl. rewrite E. simpl. done. }
  rewrite E'. split; [done|]. split; [done|]. split; [done|].
  by apply (run_Broken later (set_loop Broken false s)).
Qed.

(** X14: a frame on an idle connection, round trip.  The handler receiving
    and the loop sleeping, a message that passes the checks is decoded and
    stored; the loop wakes, takes it and classifies it; the result is sent
    with the latency measured, and the connection is idle again, the
    mailbox empty. *)
Theorem frame_round_trip
    (s : conn) (raw : string) (frame_bytes : bytes)
    (preds : list prediction) (latency : Q) :
  handler s = Receiving ->
  loop_task s = Sleeping ->
  decodes_to json_loads b64decode raw frame_bytes ->
  run_inference frame_bytes = Ok preds ->
  run [Receive raw; Wake; Done latency; SendReturns Sent] s
  = {| pending_frame := None; busy := false; loop_task := Sleeping;
       handler := Receiving;
       sent := Predictions preds latency :: sent s;
       accepted := S (accepted s);
       history := Finished {| seq := accepted s; data := frame_bytes |}
                  :: Started {| seq := accepted s; data := frame_bytes |}
                  :: Arrived {| seq := accepted s; data := frame_bytes |}
                  :: history s |}.
Proof.
  intros Hh Hl (Hsize & msg & Hj & Hf & Hb) Hr.
  unfold Main.run. cbn [fold_left].
  assert (E1 : step s (Receive raw) = put frame_bytes s).
  { simpl. rewrite Hh. unfold Main.on_text. by rewrite Hsize, Hj, Hf, Hb. }
  rewrite E1. clear E1.
  set (f := {| seq := accepted s; data := frame_bytes |}).
  assert (E2 : step (put frame_bytes s) Wake
               = {| pending_frame := None; busy := true; loop_task := Inferring f;
                    handler := Receiving; sent := sent s;
                    accepted := S (accepted s);
                    history := Started f :: Arrived f :: history s |}).
  { simpl. rewrite Hl. unfold pick_up. simpl. by rewrite Hh. }
  rewrite E2. clear E2.
  match goal with |- context [step ?s1 (Done latency)] =>
    assert (E3 : step s1 (Done latency)
                 = set_loop (Sending (Predictions preds latency) false) true
                     (record (Finished f) s1))
      by (simpl; unfold Main.on_done; simpl; by rewrite Hr);
    rewrite E3; clear E3
  end.
  reflexivity.
Qed.

End Streaming.

Lemma misplaced_frame_gets_base64_error_witness :
  step (fun _ => Ok (JArray [JString "frame"])) demo_b64decode demo_run_inference
    accept (Receive "[]")
  = reply_error "Invalid base64 in 'frame'." accept
  /\ run (fun _ => Ok (JArray [JString "frame"])) demo_b64decode demo_run_inference
       [Receive "[]"; ReplyReturns Sent] accept
     = add_sent (Error "Invalid base64 in 'frame'.") accept.
Proof.
  apply (misplaced_frame_gets_base64_error
           (fun _ => Ok (JArray [JString "frame"])) demo_b64decode
           demo_run_inference accept "[]" (JArray [JString "frame"])).
  - reflexivity.
  - vm_compute. reflexivity.
  - reflexivity.
  - left. exists [JString "frame"]. split; [reflexivity|]. left.
Defined.

Lemma handler_exit_ends_connection_witness :
  handler (demo_step (demo_run [Receive (frame_message "QQ=="); Wake] accept)
             (ReceiveRaises WebSocketDisconnect))
  = Disconnected
  /\ busy (demo_step (demo_run [Receive (frame_message "QQ=="); Wake] accept)
             (ReceiveRaises WebSocketDisconnect))
     = false
  /\ demo_run [Done 12; SendReturns Sent]
       (demo_step (demo_run [Receive (frame_message "QQ=="); Wake] accept)
          (ReceiveRaises WebSocketDisconnect))
     = demo_step (demo_run [Receive (frame_message "QQ=="); Wake] accept)
         (ReceiveRaises WebSocketDisconnect).
Proof.
  unfold demo_step, demo_run.
  destruct (handler_exit_ends_connection demo_json_loads demo_b64decode
              demo_run_inference [Receive (frame_message "QQ=="); Wake]
              [Done 12; SendReturns Sent] WebSocketDisconnect
              (ReceiveRaises WebSocketDisconnect))
    as (H1 & H2 & _ & _ & _ & H6).
  - left. split; [vm_compute|]; reflexivity.
  - split; [exact H1|]. split; [exact H2|exact H6].
Defined.

Lemma broken_loop_never_answers_witness :
  loop_task
    (demo_run [SendReturns (SendRaises (RuntimeError "closed"));
               SendReturns (SendRaises (RuntimeError "closed"))]
       (demo_run [Receive (frame_message "QQ=="); Wake; Done 12] accept))
  = Broken
  /\ starts (history
       (demo_run [Receive (frame_message "Qg=="); Wake]
          (demo_run [SendReturns (SendRaises (RuntimeError "closed"));
                     SendReturns (SendRaises (RuntimeError "closed"))]
             (demo_run [Receive (frame_message "QQ=="); Wake; Done 12] accept))))
     = starts (history
         (demo_run [Receive (frame_message "QQ=="); Wake; Done 12] accept)).
Proof.
  unfold demo_run.
  destruct (broken_loop_never_answers demo_json_loads demo_b64decode
              demo_run_inference
              (run demo_json_loads demo_b64decode demo_run_inference
                 [Receive (frame_message "QQ=="); Wake; Done 12] accept)
              (Predictions [] 12)
              (RuntimeError "closed") (RuntimeError "closed")
              [Receive (frame_message "Qg=="); Wake])
    as (H1 & _ & _ & _ & H5 & _).
  - vm_compute. reflexivity.
  - split; [exact H1|exact H5].
Defined.

Lemma frame_round_trip_witness :
  demo_run [Receive (frame_message "QQ=="); Wake; Done 12; SendReturns Sent] accept
  = {| pending_frame := None; busy := false; loop_task := Sleeping;
       handler := Receiving; sent := [Predictions [] 12]; accepted := 1;
       history := [Finished frame_A; Started frame_A; Arrived frame_A] |}.
Proof.
  unfold demo_run.
  apply (frame_round_trip demo_json_loads demo_b64decode demo_run_inference
           accept (frame_message "QQ==") [Byte.x41] [] 12).
  - reflexivity.
  - reflexivity.
  - split; [vm_compute; reflexivity|].
    exists (JObject {[ "frame" := JString "QQ==" ]}).
    split; [vm_compute; reflexivity|]. split; vm_compute; reflexivity.
  - reflexivity.
Defined.

(** ** Where the results sent come from *)

Section Results.
Variable json_loads : string -> result json.
Variable b64decode : string -> option bytes.
Variable run_inference : bytes -> result (list prediction).

#[local] Abbreviation step := (Main.step json_loads b64decode run_inference).
#[local] Abbreviation run := (Main.run json_loads b64decode run_inference).
#[local] Abbreviation sent_in := (Main.sent_in json_loads b64decode).
#[local] Abbreviation result_of :=
  (Main.result_of json_loads b64decode run_inference).
#[local] Abbreviation results_inv :=
  (Main.results_inv json_loads b64decode run_inference).

Lemma sent_in_mono raws more frame_bytes :
  sent_in raws frame_bytes -> sent_in (raws ++ more) frame_bytes.
Proof.
  intros (raw & Hin & Hd). exists raw. split; [|done].
  apply elem_of_app. by left.
Qed.

Lemma result_of_mono raws more preds :
  result_of raws preds -> result_of (raws ++ more) preds.
Proof.
  intros (frame_bytes & Hs & Hr). exists frame_bytes.
  split; [by apply sent_in_mono|done].
Qed.

Lemma results_inv_mono raws more s :
  results_inv raws s -> results_inv (raws ++ more) s.
Proof.
  intros [H1 H2 H3 H4 H5 H6 H7]. constructor; try done.
  - intros f E. by apply sent_in_mono, H1.
  - intros f E. by apply sent_in_mono, H2.
  - intros preds latency handling E. eapply result_of_mono, H3. done.
  - eapply Forall_impl; [done|]. intros preds. apply result_of_mono.
  - rewrite length_app. lia.
Qed.

Lemma results_inv_accept : results_inv [] accept.
Proof. by constructor. Qed.

Lemma results_inv_set_handler st raws s :
  results_inv raws s -> results_inv raws (set_handler st s).
Proof. intros []. by constructor. Qed.

Lemma results_inv_add_error msg raws s :
  results_inv raws s -> results_inv raws (add_sent (Error msg) s).
Proof. intros []. by constructor. Qed.

Lemma results_inv_cancel_loop raws s :
  results_inv raws s -> results_inv raws (cancel_loop s).
Proof.
  intros H. pose proof H as [H1 H2 H3 H4 H5 H6 H7].
  unfold cancel_loop. destruct (loop_task s) eqn:E; try done;
    constructor; simpl; try done; lia.
Qed.

Lemma results_inv_leave st raws s :
  results_inv raws s -> results_inv raws (leave st s).
Proof. intros H. by apply results_inv_set_handler, results_inv_cancel_loop. Qed.

Lemma results_inv_put raw frame_bytes raws s :
  decodes_to json_loads b64decode raw frame_bytes ->
  results_inv raws s -> results_inv (raws ++ [raw]) (put frame_bytes s).
Proof.
  intros Hd H. pose proof (inv_received _ _ _ _ _ H) as H7.
  apply (results_inv_mono _ [raw]) in H.
  destruct H as [H1 H2 H3 H4 H5 H6 _].
  constructor; simpl; autorewrite with hist; try done.
  - intros f [= <-]. simpl. exists raw. split; [|done].
    apply elem_of_app. right. left.
  - simpl. by rewrite H6.
  - rewrite length_app. simpl. lia.
Qed.

Lemma results_inv_pick_up raws s :
  results_inv raws s -> results_inv raws (pick_up s).
Proof.
  intros H. pose proof H as [H1 H2 H3 H4 H5 H6 H7].
  unfold pick_up. destruct (pending_frame s) as [f|] eqn:E.
  - constructor; simpl; autorewrite with hist; try done.
    + intros g [= <-]. by apply H1.
    + simpl. lia.
  - constructor; simpl; try done; [|lia]. intros f. by rewrite E.
Qed.

Lemma results_inv_on_done f latency raws s :
  loop_task s = Inferring f ->
  results_inv raws s -> results_inv raws (Main.on_done run_inference f latency s).
Proof.
  intros E [H1 H2 H3 H4 H5 H6 H7]. rewrite E in H5. simpl in H5.
  unfold Main.on_done. destruct (run_inference (data f)) as [preds|e] eqn:Er;
    constructor; simpl; autorewrite with hist; try done; try lia.
  intros preds' latency' handling [= <- <- <-].
  exists (data f). split; [by apply H2|done].
Qed.

Lemma results_inv_on_sent msg handling outcome raws s :
  loop_task s = Sending msg handling ->
  results_inv raws s -> results_inv raws (on_sent msg handling outcome s).
Proof.
  intros E H. pose proof H as [H1 H2 H3 H4 H5 H6 H7].
  rewrite E in H5. unfold on_sent. destruct outcome as [|e].
  - assert (H4' : Forall (result_of raws) (results (msg :: sent s))).
    { destruct msg as [preds latency|text]; [|done].
      constructor; [by eapply H3|done]. }
    unfold pick_up. simpl. destruct (pending_frame s) as [f|] eqn:Ep.
    + constructor; simpl; autorewrite with hist; try done.
      * intros g [= <-]. by apply H1.
      * destruct msg; simpl in *; lia.
    + constructor; simpl; try done.
      * intros f. by rewrite Ep.
      * destruct msg; simpl in *; lia.
  - destruct handling; constructor; simpl; try done; lia.
Qed.

Lemma results_inv_step raws s ev :
  results_inv raws s -> results_inv (raws ++ received [ev]) (step s ev).
Proof.
  intros H. destruct ev as [raw|e|outcome| |latency|outcome]; simpl;
    rewrite ?app_nil_r.
  - destruct (handler s); try by apply results_inv_mono.
    unfold Main.on_text.
    destruct (too_large raw) eqn:Hsize;
      [by apply results_inv_set_handler, results_inv_mono|].
    destruct (json_loads raw) as [msg|e] eqn:Hj;
      [|destruct e;
        first [by apply results_inv_leave, results_inv_mono
              |by apply results_inv_set_handler, results_inv_mono]].
    destruct (has_frame msg) as [[|]|e] eqn:Hf;
      [|by apply results_inv_set_handler, results_inv_mono
       |by apply results_inv_leave, results_inv_mono].
    destruct (frame_bytes_of b64decode msg) as [frame_bytes|] eqn:Hb;
      [|by apply results_inv_set_handler, results_inv_mono].
    apply results_inv_put; [|done]. split; [done|]. by exists msg.
  - destruct (handler s); try done. by apply results_inv_leave.
  - destruct (handler s); try done. unfold on_reply. destruct outcome.
    + by apply results_inv_set_handler, results_inv_add_error.
    + by apply results_inv_leave.
  - destruct (loop_task s); try done. by apply results_inv_pick_up.
  - destruct (loop_task s) eqn:E; try done. by apply results_inv_on_done.
  - destruct (loop_task s) eqn:E; try done. by apply results_inv_on_sent.
Qed.

Lemma results_inv_reachable evs : results_inv (received evs) (run evs accept).
Proof.
  induction evs as [|ev evs IH] using rev_ind; [apply results_inv_accept|].
  unfold Main.run, received. rewrite fold_left_app, omap_app.
  by apply results_inv_step.
Qed.

(** X15: every result sent on a connection is what [run_inference] returned
    on the bytes of a frame that the client sent in a message that passed
    the checks of [ws_predict]; and the connection has sent no more results
    than it has taken frames for processing, taken no more frames than it
    has stored, and stored no more than it has received messages. *)
Theorem results_come_from_frames (evs : list event) :
  (forall preds,
      preds ∈ results (sent (run evs accept)) ->
      exists raw frame_bytes,
        raw ∈ received evs
        /\ decodes_to json_loads b64decode raw frame_bytes
        /\ run_inference frame_bytes = Ok preds)
  /\ length (results (sent (run evs accept)))
     <= length (starts (history (run evs accept)))
  /\ length (starts (history (run evs accept))) <= accepted (run evs accept)
  /\ accepted (run evs accept) <= length (received evs).
Proof.
  destruct (results_inv_reachable evs) as [_ _ _ H4 H5 H6 H7].
  destruct (conn_inv_reachable json_loads b64decode run_inference evs) as [Hm _].
  set (s := run evs accept) in *.
  split; [|split; [lia|split; [|done]]].
  - intros preds Hin. rewrite Forall_forall in H4.
    destruct (H4 _ Hin) as (frame_bytes & (raw & Hraw & Hd) & Hr).
    by exists raw, frame_bytes.
  - rewrite <-H6. apply sublist_length.
    destruct Hm as [_ _ H3 _ _]. destruct (pending_frame s).
    + destruct H3 as (older & -> & Hsub). by constructor.
    + by destruct H3.
Qed.

End Results.

Example results_of_two_frames :
  results (sent (demo_run two_frames accept)) = [[]; []]
  /\ received two_frames = [frame_message "QQ=="; frame_message "Qg=="]
  /\ accepted (demo_run two_frames accept) = 2.
Proof. repeat split; vm_compute; reflexivity. Qed.

(** ** The order of the results, and the [busy] flag *)

Section Replies.
Variable json_loads : string -> result json.
Variable b64decode : string -> option bytes.
Variable run_inference : bytes -> result (list prediction).

#[local] Abbreviation step := (Main.step json_loads b64decode run_inference).
#[local] Abbreviation run := (Main.run json_loads b64decode run_inference).
#[local] Abbreviation replies_inv := (Main.replies_inv run_inference).

(** The frames answered are among the frames taken, whatever the loop does. *)
Lemma replies_inv_sublist s fs :
  replies_inv s fs -> fs `sublist_of` starts (history s).
Proof.
  intros [_ H]. destruct (loop_task s) as [|f|[preds latency|text] handling| |];
    try done.
  - destruct H as (rest & -> & H). by constructor.
  - destruct H as (f & rest & -> & _ & H). by constructor.
Qed.

(** The loop given up (cancelled, broken, or sending an error message). *)
Lemma replies_inv_weaken s s' fs :
  sent s' = sent s -> history s' = history s ->
  match loop_task s' with
  | Inferring _ | Sending (Predictions _ _) _ => False
  | _ => True
  end ->
  replies_inv s fs -> replies_inv s' fs.
Proof.
  intros Es Eh Hl H. pose proof (replies_inv_sublist _ _ H) as Hsub.
  destruct H as [H _]. split; [by rewrite Es|]. rewrite Eh.
  destruct (loop_task s') as [|f|[preds latency|text] handling| |]; done.
Qed.

(** Nothing the loop is concerned with changes. *)
Lemma replies_inv_ext s s' fs :
  results (sent s') = results (sent s) ->
  starts (history s') = starts (history s) ->
  loop_task s' = loop_task s ->
  replies_inv s fs -> replies_inv s' fs.
Proof. intros Es Eh El [H1 H2]. split; [by rewrite Es|by rewrite El, Eh]. Qed.

Lemma replies_inv_leave st s fs : replies_inv s fs -> replies_inv (leave st s) fs.
Proof.
  intros H. unfold leave, cancel_loop.
  destruct (loop_task s) eqn:E;
    try (by apply (replies_inv_weaken s); [..|done]; simpl; rewrite ?E).
Qed.

Lemma replies_inv_pick_up s fs :
  Forall2 (fun preds f => run_inference (data f) = Ok preds) (results (sent s)) fs ->
  fs `sublist_of` starts (history s) ->
  replies_inv (pick_up s) fs.
Proof.
  intros H Hsub. unfold pick_up. destruct (pending_frame s) as [f|].
  - split; [done|]. simpl. autorewrite with hist. by eexists.
  - split; [done|]. done.
Qed.

Lemma replies_inv_step s ev fs :
  replies_inv s fs -> exists fs', replies_inv (step s ev) fs'.
Proof.
  intros H. destruct ev as [raw|e|outcome| |latency|outcome]; simpl.
  - exists fs. destruct (handler s); try done. unfold Main.on_text.
    repeat case_match; try (by apply replies_inv_leave);
      by apply (replies_inv_ext s).
  - exists fs. destruct (handler s); try done. by apply replies_inv_leave.
  - exists fs. destruct (handler s); try done. unfold on_reply.
    destruct outcome; [by apply (replies_inv_ext s)|by apply replies_inv_leave].
  - exists fs. destruct (loop_task s) eqn:E; try done.
    apply replies_inv_pick_up; [by destruct H|by apply replies_inv_sublist].
  - destruct (loop_task s) as [|f| | |] eqn:E; try by exists fs.
    exists fs. destruct H as [H1 H2]. rewrite E in H2.
    destruct H2 as (rest & Es & Hsub). unfold Main.on_done.
    destruct (run_inference (data f)) as [preds|e] eqn:Er.
    + split; [done|]. simpl. autorewrite with hist. by exists f, rest.
    + split; [done|]. simpl. autorewrite with hist. rewrite Es. by constructor.
  - destruct (loop_task s) as [| |msg handling| |] eqn:E; try by exists fs.
    unfold on_sent. destruct outcome as [|e].
    + destruct H as [H1 H2]. rewrite E in H2.
      destruct msg as [preds latency|text].
      * destruct H2 as (f & rest & Es & Er & Hsub). exists (f :: fs).
        apply replies_inv_pick_up; simpl; [by constructor|].
        rewrite Es. by constructor.
      * exists fs. by apply replies_inv_pick_up.
    + exists fs. destruct handling; by apply (replies_inv_weaken s).
Qed.

Lemma replies_inv_reachable evs : exists fs, replies_inv (run evs accept) fs.
Proof.
  induction evs as [|ev evs [fs IH]] using rev_ind.
  - exists []. split; [constructor|]. simpl. constructor.
  - unfold Main.run. rewrite fold_left_app. by eapply replies_inv_step.
Qed.

(** X16: the results sent on a connection answer frames in the order in
    which they arrived: to each result sent corresponds a frame on which
    [run_inference] returned it, these frames follow one another as the
    results do, they are among the frames taken for processing and among
    the arrivals in their order, and none of them is answered twice. *)
Theorem results_in_order_of_arrival (evs : list event) :
  exists fs,
    Forall2 (fun preds f => run_inference (data f) = Ok preds)
      (results (sent (run evs accept))) fs
    /\ fs `sublist_of` starts (history (run evs accept))
    /\ fs `sublist_of` arrivals (history (run evs accept))
    /\ NoDup fs.
Proof.
  destruct (replies_inv_reachable evs) as [fs H]. exists fs.
  pose proof (replies_inv_sublist _ _ H) as Hsub. destruct H as [H _].
  destruct (conn_inv_reachable json_loads b64decode run_inference evs) as [Hm _].
  set (s := run evs accept) in *.
  assert (Hsa : starts (history s) `sublist_of` arrivals (history s)).
  { destruct Hm as [_ _ H3 _ _]. destruct (pending_frame s).
    - destruct H3 as (older & -> & Hs). by constructor.
    - by destruct H3. }
  split; [done|]. split; [done|]. split; [by etrans|].
  eapply sublist_NoDup; [|by etrans].
  apply newest_first_NoDup. by destruct Hm.
Qed.

Lemma step_forget_busy s1 s2 ev :
  forget_busy s1 = forget_busy s2 ->
  forget_busy (step s1 ev) = forget_busy (step s2 ev).
Proof.
  destruct s1 as [p1 b1 l1 h1 m1 a1 o1], s2 as [p2 b2 l2 h2 m2 a2 o2].
  unfold forget_busy. simpl. intros [= -> -> -> -> -> ->].
  destruct ev as [raw|e|outcome| |latency|outcome]; simpl.
  - destruct h2; try done. unfold Main.on_text.
    repeat case_match; try done; unfold leave, cancel_loop; simpl;
      by destruct l2.
  - destruct h2; try done. unfold leave, cancel_loop; simpl. by destruct l2.
  - destruct h2; try done. destruct outcome; simpl; [done|].
    unfold leave, cancel_loop; simpl. by destruct l2.
  - destruct l2; try done. unfold pick_up; simpl. by destruct p2.
  - destruct l2; try done. unfold Main.on_done; simpl.
    by destruct (run_inference (data f)).
  - destruct l2; try done. unfold on_sent, pick_up; simpl.
    destruct outcome; [by destruct p2|by destruct handling].
Qed.

(** X17: the [busy] event is set and cleared but never read: two
    connections that differ in nothing but the flag go, on the same events,
    through states that differ in nothing but the flag; they send the same
    messages and process the same frames. *)
Theorem busy_is_never_read (evs : list event) (s1 s2 : conn) :
  forget_busy s1 = forget_busy s2 ->
  forget_busy (run evs s1) = forget_busy (run evs s2)
  /\ sent (run evs s1) = sent (run evs s2)
  /\ history (run evs s1) = history (run evs s2).
Proof.
  intros H.
  assert (E : forget_busy (run evs s1) = forget_busy (run evs s2)).
  { revert s1 s2 H. induction evs as [|ev evs IH]; intros s1 s2 H; [done|].
    apply (IH (step s1 ev) (step s2 ev)). by apply step_forget_busy. }
  split; [done|].
  split; [exact (f_equal sent E)|exact (f_equal history E)].
Qed.

End Replies.

Lemma busy_is_never_read_witness :
  sent (demo_run two_frames (set_loop Sleeping true accept))
  = sent (demo_run two_frames accept)
  /\ history (demo_run two_frames (set_loop Sleeping true accept))
     = history (demo_run two_frames accept).
Proof.
  unfold demo_run.
  apply (busy_is_never_read demo_json_loads demo_b64decode demo_run_inference
           two_frames (set_loop Sleeping true accept) accept).
  reflexivity.
Defined.

End MainFacts.
